(** * Job-posts visualisation: the colour assigner and the flagging store

    A shallow embedding of [app.py]: the category colour assigner
    [generate_isco_grouped_colors], the callbacks that maintain the list of
    flagged records ([add_to_misclassified], [clear_misclassified]) and the
    row lookup of [display_click].

    Data model.  A Python [str] is a Rocq [string], read as a sequence of code
    points below 256.  A Python [int] is a [Z].  A Python [float] is an IEEE-754
    binary64 number, a [spec_float] with 53 bits of precision, every operation
    rounding to nearest-even as the hardware does.  A [dict] is a [gmap], a
    [set] a [gset].  An exception is a value of [exn] carried by [result]. *)

From Stdlib Require Import ZArith QArith Qabs Qminmax Lia List Ascii String.
From Stdlib Require Import Permutation Sorted.
From Stdlib Require Import Decimal DecimalString Hexadecimal HexadecimalString.
From Stdlib Require Import Floats.SpecFloat.
From Stdlib Require DecimalZ.
From Stdlib Require PrimFloat FloatOps FloatAxioms Uint63.
From stdpp Require Import base decidable option list sorting gmap strings.

Local Open Scope string_scope.
Local Open Scope Z_scope.

(** ** Exceptions *)

Inductive exn : Type :=
  | ValueError
  | KeyError
  | ZeroDivisionError
  | OverflowError
  | TypeError.

Inductive result (A : Type) : Type :=
  | Ok (a : A)
  | Raise (e : exn).
Arguments Ok {A} a.
Arguments Raise {A} e.

Definition bind {A B} (r : result A) (k : A -> result B) : result B :=
  match r with
  | Ok a => k a
  | Raise e => Raise e
  end.

Notation "x <-! r ; k" := (bind r (fun x => k))
  (at level 100, r at next level, right associativity).

(** [try: body except ValueError: handler] *)
Definition try_except_ValueError {A} (body handler : result A) : result A :=
  match body with
  | Raise ValueError => handler
  | other => other
  end.

(** A [for] loop whose body may raise: the first exception ends the loop. *)
Fixpoint for_each {A S} (body : S -> A -> result S) (xs : list A) (s : S) : result S :=
  match xs with
  | [] => Ok s
  | x :: xs' => s' <-! body s x ; for_each body xs' s'
  end.

(** A list comprehension whose element expression may raise. *)
Fixpoint comprehend {A B} (f : A -> result B) (xs : list A) : result (list B) :=
  match xs with
  | [] => Ok []
  | x :: xs' => y <-! f x ; ys <-! comprehend f xs' ; Ok (y :: ys)
  end.

(** [enumerate(xs)] *)
Definition enumerate {A} (xs : list A) : list (nat * A) :=
  imap (fun i x => (i, x)) xs.

(** ** Python floats *)

Module PyFloat.

Definition float := spec_float.
Definition prec : Z := 53.
Definition emax : Z := 1024.

Definition fadd : float -> float -> float := SFadd prec emax.
Definition fsub : float -> float -> float := SFsub prec emax.
Definition fmul : float -> float -> float := SFmul prec emax.
Definition fdiv : float -> float -> float := SFdiv prec emax.
Definition feqb : float -> float -> bool := SFeqb.

(** [float(z)] for an integer [z], rounded to nearest. *)
Definition of_Z (z : Z) : float := binary_normalize prec emax z 0 false.
Definition of_nat (n : nat) : float := of_Z (Z.of_nat n).

(** A decimal literal [num/den] denotes the double nearest to that ratio;
    for the short literals of the program both parts are exact doubles, so
    one correctly rounded division yields it. *)
Definition literal (num den : Z) : float := fdiv (of_Z num) (of_Z den).

Definition zero : float := S754_zero false.
Definition one : float := of_Z 1.

(** [x / y] on floats: a zero divisor raises. *)
Definition truediv (x y : float) : result float :=
  match y with
  | S754_zero _ => Raise ZeroDivisionError
  | _ => Ok (fdiv x y)
  end.

(** [x % 1.0]: the C [fmod], which is exact, moved into [0, 1) when it is
    negative; a zero result is [+0.0]. *)
Definition mod_one (x : float) : float :=
  match x with
  | S754_nan | S754_infinity _ => S754_nan
  | S754_zero _ => zero
  | S754_finite s m e =>
      let frac := if 0 <=? e then 0 else Z.pos m mod 2 ^ (- e) in
      if frac =? 0 then zero
      else if s then fadd (binary_normalize prec emax (- frac) e false) one
      else binary_normalize prec emax frac e false
  end.

(** [int(x)]: truncation toward zero; NaN and the infinities raise. *)
Definition to_int (x : float) : result Z :=
  match x with
  | S754_nan => Raise ValueError
  | S754_infinity _ => Raise OverflowError
  | S754_zero _ => Ok 0
  | S754_finite s m e =>
      let mag := if 0 <=? e then Z.pos m * 2 ^ e else Z.pos m / 2 ^ (- e) in
      Ok (if s then - mag else mag)
  end.

(** The exact rational value of a finite float (0 for the others). *)
Definition to_Q (x : float) : Q :=
  match x with
  | S754_finite s m e =>
      let v := if 0 <=? e then inject_Z (Z.pos m * 2 ^ e)
               else Qmake (Z.pos m) (Z.to_pos (2 ^ (- e))) in
      if s then Qopp v else v
  | _ => 0%Q
  end.

End PyFloat.
Import PyFloat.

Example literal_0_8 : literal 8 10 = S754_finite false 7205759403792794 (-53).
Proof. vm_compute. reflexivity. Qed.

(** ** Python strings and integers *)

Definition code_point (c : ascii) : N := N_of_ascii c.

Definition is_ascii_str (s : string) : bool :=
  forallb (fun c => (code_point c <? 128)%N) (list_ascii_of_string s).

(** The value of a decimal digit character. *)
Definition digit_value (c : ascii) : option Z :=
  let k := code_point c in
  if ((48 <=? k) && (k <=? 57))%N then Some (Z.of_N k - 48) else None.

(** What [int] skips around a numeral: the C white space, and in a string
    that is not pure ASCII also U+0085 and U+00A0. *)
Definition int_space (ascii_only : bool) (c : ascii) : bool :=
  let k := code_point c in
  (((9 <=? k) && (k <=? 13)) || (k =? 32)
   || (negb ascii_only && ((k =? 133) || (k =? 160))))%N.

Fixpoint skip_space (ascii_only : bool) (s : string) : string :=
  match s with
  | String c s' => if int_space ascii_only c then skip_space ascii_only s' else s
  | EmptyString => s
  end.

(** Digits with single underscores between them; returns the value read and
    what follows the numeral. *)
Fixpoint scan_digits (s : string) (acc : Z) (seen prev_underscore : bool)
  : option (Z * string) :=
  match s with
  | EmptyString => if prev_underscore || negb seen then None else Some (acc, s)
  | String c s' =>
      match digit_value c with
      | Some d => scan_digits s' (10 * acc + d) true false
      | None =>
          if prev_underscore || negb seen then None
          else if (code_point c =? 95)%N then scan_digits s' acc seen true
          else Some (acc, s)
      end
  end.

(** [int(s)] for a string [s], base ten.  The interpreter's optional cap on
    the number of digits of a numeral is not part of the model. *)
Definition py_int (s : string) : result Z :=
  let ascii_only := is_ascii_str s in
  let s1 := skip_space ascii_only s in
  let '(negative, s2) :=
    match s1 with
    | String "+" r => (false, r)
    | String "-" r => (true, r)
    | _ => (false, s1)
    end in
  match scan_digits s2 0 false false with
  | Some (v, rest) =>
      match skip_space ascii_only rest with
      | EmptyString => Ok (if negative then - v else v)
      | _ => Raise ValueError
      end
  | None => Raise ValueError
  end.

(** [str(z)] for an integer [z]. *)
Definition py_str (z : Z) : string :=
  DecimalString.NilZero.string_of_int (Z.to_int z).

(** [s[0]] as a one-character string. *)
Definition char_str (c : ascii) : string := String c EmptyString.

(** [format(k, "02x")]: lowercase hexadecimal, zero-padded to two columns,
    the sign taking one of them. *)
Definition format_02x (k : Z) : string :=
  let body := HexadecimalString.NilZero.string_of_uint (N.to_hex_uint (Z.abs_N k)) in
  if k <? 0 then "-" ++ body
  else if (String.length body <? 2)%nat then "0" ++ body
  else body.

(** ** [colorsys.hsv_to_rgb], as the interpreter's library defines it *)

Definition hsv_to_rgb (h s v : float) : result (float * float * float) :=
  if feqb s zero then Ok (v, v, v)
  else
    i <-! to_int (fmul h (of_Z 6)) ;
    let f := fsub (fmul h (of_Z 6)) (of_Z i) in
    let p := fmul v (fsub one s) in
    let q := fmul v (fsub one (fmul s f)) in
    let t := fmul v (fsub one (fmul s (fsub one f))) in
    let i := i mod 6 in
    if i =? 0 then Ok (v, t, p)
    else if i =? 1 then Ok (q, v, p)
    else if i =? 2 then Ok (p, v, t)
    else if i =? 3 then Ok (p, q, v)
    else if i =? 4 then Ok (t, p, v)
    else if i =? 5 then Ok (v, p, q)
    else Raise TypeError.

(** ** Orders used by [sorted] *)

Definition str_le (s1 s2 : string) : Prop := String.leb s1 s2 = true.
Definition chr_le (c1 c2 : ascii) : Prop := (code_point c1 <= code_point c2)%N.

#[global] Instance str_le_dec s1 s2 : Decision (str_le s1 s2).
Proof. unfold str_le. apply _. Defined.
#[global] Instance chr_le_dec c1 c2 : Decision (chr_le c1 c2).
Proof. unfold chr_le. apply _. Defined.

(** ** The colour assigner *)

(** Lines 27-37: numeric order when every code parses, else string order.
    The dictionary [isco_map] built on lines 30 and 37 is never read. *)
Definition sort_codes (isco_categories : list string) : result (list string) :=
  try_except_ValueError
    (isco_integers <-! comprehend py_int isco_categories ;
     let sorted_codes := merge_sort Z.le isco_integers in
     Ok (map py_str sorted_codes))
    (Ok (merge_sort str_le isco_categories)).

(** Lines 41-44: the set of first characters. *)
Definition collect_major_groups (sorted_isco : list string) : gset ascii :=
  foldl (fun major_groups code =>
           match code with
           | String c _ => major_groups ∪ {[ c ]}
           | EmptyString => major_groups
           end) ∅ sorted_isco.

(** Line 46: [sorted(list(major_groups))]. *)
Definition sorted_major_groups (sorted_isco : list string) : list ascii :=
  merge_sort chr_le (elements (collect_major_groups sorted_isco)).

(** Line 54: [i * 0.8 / n_major_groups]. *)
Definition base_hue_of (i n_major_groups : nat) : result float :=
  truediv (fmul (of_nat i) (literal 8 10)) (of_nat n_major_groups).

(** Lines 50-54. *)
Definition assign_base_hues (major_groups : list ascii) : result (gmap ascii float) :=
  let n_major_groups := length major_groups in
  for_each (fun major_group_hue '(i, group) =>
              h <-! base_hue_of i n_major_groups ;
              Ok (<[ group := h ]> major_group_hue))
           (enumerate major_groups) ∅.

(** [d[k]] *)
Definition subscript {K V} `{Countable K} (d : gmap K V) (k : K) : result V :=
  match d !! k with
  | Some v => Ok v
  | None => Raise KeyError
  end.

(** Lines 66-75.  The initial [0] is an [int]; added to a float it acts as
    [0.0], which is how it is carried here. *)
Definition minor_variation_of (n_major_groups : nat) (code : string) : result float :=
  match code with
  | String _ (String c1 _) =>
      try_except_ValueError
        (minor_digit <-! py_int (char_str c1) ;
         hue_range_per_group <-! truediv (literal 8 10) (of_nat n_major_groups) ;
         truediv (fmul (of_Z minor_digit) hue_range_per_group) (of_Z 12))
        (Ok zero)
  | _ => Ok zero
  end.

(** Lines 60-78. *)
Definition hue_of (major_group_hue : gmap ascii float) (n_major_groups : nat)
    (major_group : ascii) (code : string) : result float :=
  base_hue <-! subscript major_group_hue major_group ;
  minor_variation <-! minor_variation_of n_major_groups code ;
  Ok (mod_one (fadd base_hue minor_variation)).

(** Line 87. *)
Definition hex_of_rgb (r g b : float) : result string :=
  ri <-! to_int (fmul r (of_Z 255)) ;
  gi <-! to_int (fmul g (of_Z 255)) ;
  bi <-! to_int (fmul b (of_Z 255)) ;
  Ok ("#" ++ format_02x ri ++ format_02x gi ++ format_02x bi)%string.

(** Lines 82-87. *)
Definition hex_color_of (hue : float) (major_group : ascii) : result string :=
  group_number <-! py_int (char_str major_group) ;
  let is_odd_group := group_number mod 2 =? 1 in
  let saturation := if is_odd_group then literal 85 100 else literal 75 100 in
  let value := if is_odd_group then literal 9 10 else literal 95 100 in
  rgb <-! hsv_to_rgb hue saturation value ;
  let '(r, g, b) := rgb in
  hex_of_rgb r g b.

(** Lines 58-88: the body of the loop over [sorted_isco]. *)
Definition assign_color (major_group_hue : gmap ascii float) (n_major_groups : nat)
    (colors : gmap string string) (code : string) : result (gmap string string) :=
  match code with
  | String major_group _ =>
      hue <-! hue_of major_group_hue n_major_groups major_group code ;
      hex_color <-! hex_color_of hue major_group ;
      Ok (<[ code := hex_color ]> colors)
  | EmptyString => Ok colors
  end.

Definition generate_isco_grouped_colors (isco_categories : list string)
  : result (gmap string string) :=
  sorted_isco <-! sort_codes isco_categories ;
  let major_groups := sorted_major_groups sorted_isco in
  let n_major_groups := length major_groups in
  major_group_hue <-! assign_base_hues major_groups ;
  for_each (assign_color major_group_hue n_major_groups) sorted_isco ∅.

(** * The flagging store *)

(** A value held in a record of the store: what JSON carries between the
    browser and the callbacks.  A number is carried as a double. *)
Inductive value : Type :=
  | VNone
  | VStr (s : string)
  | VNum (x : float).

(** [a == b] *)
Definition py_eq (a b : value) : bool :=
  match a, b with
  | VNone, VNone => true
  | VStr s, VStr t => String.eqb s t
  | VNum x, VNum y => feqb x y
  | _, _ => false
  end.

(** [d.get(key)]: [None] for a missing key. *)
Definition dict_get (d : gmap string value) (key : string) : value :=
  default VNone (d !! key).

(** What a callback writes to the feedback area: nothing, or a coloured
    bold line. *)
Inductive feedback : Type :=
  | Blank
  | Notice (text color : string).

(** Lines 293-295: the record is already in the list. *)
Definition same_record (entry misclassified_entry : gmap string value) : bool :=
  py_eq (dict_get entry "title_en") (dict_get misclassified_entry "title_en") &&
  py_eq (dict_get entry "isco2d") (dict_get misclassified_entry "isco2d").

(** Lines 281-307.  The global [last_clicked_data] and the clock reading
    [now], already formatted, are arguments. *)
Definition add_to_misclassified (last_clicked_data : gmap string value) (now : string)
    (n_clicks : Z) (current_data : list (gmap string value))
  : list (gmap string value) * feedback :=
  if (n_clicks =? 0) || (size last_clicked_data =? 0)%nat then (current_data, Blank)
  else
    let misclassified_entry := <[ "timestamp" := VStr now ]> last_clicked_data in
    let misclassified_entry :=
      <[ "id" := VStr (py_str (Z.of_nat (length current_data) + 1)) ]>
        misclassified_entry in
    if existsb (fun entry => same_record entry misclassified_entry) current_data
    then (current_data,
          Notice "This job is already in the misclassified list!" "#dc3545")
    else ((current_data ++ [misclassified_entry])%list,
          Notice "Added to misclassified jobs list!" "#28a745").

(** Lines 421-425. *)
Definition clear_misclassified (n_clicks : Z) : list (gmap string value) * feedback :=
  ([], Notice "Misclassified jobs list cleared!" "#6c757d").

(** The store changes only through these two callbacks. *)
Inductive event : Type :=
  | Add (last_clicked_data : gmap string value) (now : string) (n_clicks : Z)
  | Clear (n_clicks : Z).

Definition handle (current_data : list (gmap string value)) (ev : event)
  : list (gmap string value) :=
  match ev with
  | Add last_clicked_data now n_clicks =>
      fst (add_to_misclassified last_clicked_data now n_clicks current_data)
  | Clear n_clicks => fst (clear_misclassified n_clicks)
  end.

Inductive reachable : list (gmap string value) -> Prop :=
  | reachable_initial : reachable []
  | reachable_handle data ev : reachable data -> reachable (handle data ev).

(** * The click handler *)

(** A row of the dataframe [df]. *)
Record row : Type := {
  row_isco2d : string;
  row_title : string;
  row_title_en : string;
  row_x : float;
  row_y : float;
}.

(** [clickData["points"][0]]: [customdata] holds the translated title and
    the category code, in that order. *)
Record point : Type := {
  pt_title_en : string;
  pt_isco2d : string;
  pt_x : float;
  pt_y : float;
}.

(** The details panel: the fields the returned [html.Div] shows. *)
Record details : Type := {
  shown_isco2d : string;
  shown_group_name : string;
  shown_border_color : string;
  shown_background : string;
  shown_original_title : string;
  shown_english_title : string;
  shown_coordinates : string;
}.

Inductive click_info : Type :=
  | Prompt (text : string)
  | Panel (d : details).

(** Lines 486-530. *)
Definition isco_submajor_groups : gmap string string :=
  list_to_map [
    ("11", "Chief executives, senior officials and legislators");
    ("12", "Administrative and commercial managers");
    ("13", "Production and specialized services managers");
    ("14", "Hospitality, retail and other services managers");
    ("21", "Science and engineering professionals");
    ("22", "Health professionals");
    ("23", "Teaching professionals");
    ("24", "Business and administration professionals");
    ("25", "Information and communications technology professionals");
    ("26", "Legal, social and cultural professionals");
    ("31", "Science and engineering associate professionals");
    ("32", "Health associate professionals");
    ("33", "Business and administration associate professionals");
    ("34", "Legal, social, cultural and related associate professionals");
    ("35", "Information and communications technicians");
    ("41", "General and keyboard clerks");
    ("42", "Customer services clerks");
    ("43", "Numerical and material recording clerks");
    ("44", "Other clerical support workers");
    ("51", "Personal service workers");
    ("52", "Sales workers");
    ("53", "Personal care workers");
    ("54", "Protective services workers");
    ("61", "Market-oriented skilled agricultural workers");
    ("62", "Market-oriented skilled forestry, fishery and hunting workers");
    ("63", "Subsistence farmers, fishers, hunters and gatherers");
    ("71", "Building and related trades workers, excluding electricians");
    ("72", "Metal, machinery and related trades workers");
    ("73", "Handicraft and printing workers");
    ("74", "Electrical and electronic trades workers");
    ("75", "Food processing, wood working, garment and other craft and related trades workers");
    ("81", "Stationary plant and machine operators");
    ("82", "Assemblers");
    ("83", "Drivers and mobile plant operators");
    ("91", "Cleaners and helpers");
    ("92", "Agricultural, forestry and fishery labourers");
    ("93", "Labourers in mining, construction, manufacturing and transport");
    ("94", "Food preparation assistants");
    ("95", "Street and related sales and service workers");
    ("96", "Refuse workers and other elementary workers");
    ("101", "Commissioned armed forces officers");
    ("102", "Non-commissioned armed forces officers");
    ("103", "Armed forces occupations, other ranks")
  ].

(** Lines 540-551. *)
Definition isco_major_groups : gmap string string :=
  list_to_map [
    ("1", "Managers");
    ("2", "Professionals");
    ("3", "Technicians and Associate Professionals");
    ("4", "Clerical Support Workers");
    ("5", "Service and Sales Workers");
    ("6", "Skilled Agricultural, Forestry and Fishery Workers");
    ("7", "Craft and Related Trades Workers");
    ("8", "Plant and Machine Operators and Assemblers");
    ("9", "Elementary Occupations");
    ("10", "Armed Forces Occupations")
  ].

(** Lines 533-553: the name shown for a category code. *)
Definition submajor_group_name_of (isco2d : string) : string :=
  let submajor_group := isco2d in
  let submajor_group_name := default "" (isco_submajor_groups !! submajor_group) in
  match submajor_group with
  | String c0 rest =>
      if String.eqb submajor_group_name "" then
        let major_group :=
          if negb (Ascii.eqb c0 "1") then char_str c0
          else match rest with
               | String "0" _ => "10"
               | _ => "1"
               end in
        ("(In " ++ default "Unknown Group" (isco_major_groups !! major_group) ++ ")")%string
      else submajor_group_name
  | EmptyString => submajor_group_name
  end.

Section click.

(** Library functions the handler calls: the dataframe's rounding of a
    column to three decimals, the built-in [round(x, 3)], and the format
    [.3f]. *)
Variable series_round_3 : float -> float.
Variable builtin_round_3 : float -> float.
Variable format_3f : float -> string.

(** Lines 453-456: the mask selecting the rows that match the clicked point. *)
Definition row_matches (isco2d title_en : string) (x_coord y_coord : float)
    (r : row) : bool :=
  String.eqb (row_isco2d r) isco2d &&
  String.eqb (row_title_en r) title_en &&
  feqb (series_round_3 (row_x r)) (builtin_round_3 x_coord) &&
  feqb (series_round_3 (row_y r)) (builtin_round_3 y_coord).

(** Lines 433-592.  The dataframe and the colour map are globals set at
    start-up; the global [last_clicked_data] is read and written, so it is
    passed in and returned. *)
Definition display_click (df : list row) (color_map : gmap string string)
    (clickData : option point) (last_clicked_data : gmap string value)
  : gmap string value * click_info :=
  match clickData with
  | None => (last_clicked_data, Prompt "Click on a dot to see details here.")
  | Some pt =>
      let isco2d := pt_isco2d pt in
      let title_en := pt_title_en pt in
      let x_coord := pt_x pt in
      let y_coord := pt_y pt in
      let matching_rows := filter (row_matches isco2d title_en x_coord y_coord) df in
      let last_clicked_data : gmap string value :=
        <[ "y" := VNum y_coord ]> (<[ "x" := VNum x_coord ]>
          (<[ "title_en" := VStr title_en ]> {[ "isco2d" := VStr isco2d ]})) in
      let '(title, shown_title_en) :=
        match matching_rows with
        | r :: _ => (row_title r, row_title_en r)
        | [] => ("Original title not available", title_en)
        end in
      let last_clicked_data := <[ "title" := VStr title ]> last_clicked_data in
      let cat_color := default "#333333" (color_map !! isco2d) in
      let submajor_group_name := submajor_group_name_of isco2d in
      let last_clicked_data :=
        <[ "submajor_group_name" := VStr submajor_group_name ]> last_clicked_data in
      (last_clicked_data,
       Panel {| shown_isco2d := isco2d;
                shown_group_name := submajor_group_name;
                shown_border_color := cat_color;
                shown_background := (cat_color ++ "22")%string;
                shown_original_title := title;
                shown_english_title := shown_title_en;
                shown_coordinates :=
                  ("(" ++ format_3f x_coord ++ ", " ++ format_3f y_coord ++ ")")%string |})
  end.

End click.

(** * The order of the legend *)

(** [c.isdigit()] for one character: the decimal digits and the
    superscripts two, three and one. *)
Definition is_digit_char (c : ascii) : bool :=
  let k := code_point c in
  (((48 <=? k) && (k <=? 57)) || (k =? 178) || (k =? 179) || (k =? 185))%N.

(** [s.isdigit()]: at least one character, all of them digits. *)
Definition py_isdigit (s : string) : bool :=
  match s with
  | EmptyString => false
  | _ => forallb is_digit_char (list_ascii_of_string s)
  end.

(** Line 105, the sort key [int(x) if x.isdigit() else float('inf')]:
    [None] stands for the infinity. *)
Definition legend_key (x : string) : result (option Z) :=
  if py_isdigit x then z <-! py_int x ; Ok (Some z) else Ok None.

(** [a < b] on keys: an integer is below the infinity. *)
Definition key_lt (a b : option Z) : bool :=
  match a, b with
  | Some x, Some y => x <? y
  | Some _, None => true
  | None, _ => false
  end.

(** [sorted(..., key=...)] is stable: an element goes in front of the first
    later element whose key is not smaller. *)
Fixpoint insert_by_key (kx : option Z * string) (l : list (option Z * string))
  : list (option Z * string) :=
  match l with
  | [] => [kx]
  | ky :: l' =>
      if key_lt (fst ky) (fst kx) then ky :: insert_by_key kx l' else kx :: l
  end.

Fixpoint sorted_by_key (l : list (option Z * string)) : list (option Z * string) :=
  match l with
  | [] => []
  | kx :: l' => insert_by_key kx (sorted_by_key l')
  end.

(** Lines 104-105.  The categories are strings, on which [str] is the
    identity; the keys are computed first, in input order. *)
Definition sorted_categories (unique_categories : list string) : result (list string) :=
  keyed <-! comprehend (fun x => k <-! legend_key x ; Ok (k, x)) unique_categories ;
  Ok (map snd (sorted_by_key keyed)).

(** Lines 96-105: the colour map and the legend order, both computed from
    the categories of the dataframe when the module is loaded. *)
Definition start_up (unique_categories : list string)
  : result (gmap string string * list string) :=
  color_map <-! generate_isco_grouped_colors unique_categories ;
  legend <-! sorted_categories unique_categories ;
  Ok (color_map, legend).

(** * A session: clicks, flags and clears *)

(** The state the callbacks share in one browser session: the selected
    record, which is the global [last_clicked_data] (line 427), and the
    store of flagged records (line 172). *)
Record session : Type := {
  selected : gmap string value;
  flagged : list (gmap string value);
}.

Inductive action : Type :=
  | ClickPoint (clickData : option point)
  | PressAdd (n_clicks : Z) (now : string)
  | PressClear (n_clicks : Z).

(** Line 427 and line 172: nothing selected, nothing flagged. *)
Definition session_start : session := {| selected := ∅; flagged := [] |}.

Section sessions.

Variable series_round_3 : float -> float.
Variable builtin_round_3 : float -> float.
Variable format_3f : float -> string.
Variable df : list row.
Variable color_map : gmap string string.

(** What one user action does: a click on the plot runs [display_click],
    the two buttons run [add_to_misclassified] and [clear_misclassified]
    on the store. *)
Definition perform (s : session) (a : action) : session :=
  match a with
  | ClickPoint clickData =>
      {| selected := fst (display_click series_round_3 builtin_round_3 format_3f
                            df color_map clickData (selected s));
         flagged := flagged s |}
  | PressAdd n_clicks now =>
      {| selected := selected s;
         flagged := fst (add_to_misclassified (selected s) now n_clicks (flagged s)) |}
  | PressClear n_clicks =>
      {| selected := selected s;
         flagged := fst (clear_misclassified n_clicks) |}
  end.

(** The session after a list of actions, the earliest first. *)
Definition session_after (actions : list action) : session :=
  foldl perform session_start actions.

End sessions.

(** * Properties *)

(** ** The monad and the loops *)

Lemma bind_Ok {A B} (r : result A) (k : A -> result B) (b : B) :
  bind r k = Ok b <-> exists a, r = Ok a /\ k a = Ok b.
Proof.
  destruct r as [a|e]; simpl; split.
  - intros Hk. exists a. auto.
  - intros (a' & Ha & Hk). congruence.
  - discriminate.
  - intros (a' & Ha & _). discriminate.
Qed.

(** ** [sorted] does not depend on the order of its argument *)

Section sorted_unique.
Context {A : Type} (R : relation A) `{!forall x y, Decision (R x y)}.
Context `{!Total R, !Transitive R, !AntiSymm (=) R}.

Lemma merge_sort_perm (l1 l2 : list A) :
  l1 ≡ₚ l2 -> merge_sort R l1 = merge_sort R l2.
Proof.
  intros Hp.
  apply (Sorted_unique R); try apply Sorted_merge_sort; try apply _.
  rewrite !merge_sort_Permutation. exact Hp.
Qed.

Lemma elem_of_merge_sort (x : A) (l : list A) : x ∈ merge_sort R l <-> x ∈ l.
Proof. by rewrite merge_sort_Permutation. Qed.

Lemma NoDup_merge_sort (l : list A) : NoDup l -> NoDup (merge_sort R l).
Proof. by rewrite merge_sort_Permutation. Qed.
End sorted_unique.

(** The code-point order on characters. *)

Lemma code_point_inj (c1 c2 : ascii) : code_point c1 = code_point c2 -> c1 = c2.
Proof.
  unfold code_point. intros H.
  rewrite <- (ascii_N_embedding c1), <- (ascii_N_embedding c2). by rewrite H.
Qed.

#[global] Instance chr_le_total : Total chr_le.
Proof. intros c1 c2. unfold chr_le. lia. Qed.
#[global] Instance chr_le_trans : Transitive chr_le.
Proof. intros c1 c2 c3. unfold chr_le. lia. Qed.
#[global] Instance chr_le_antisym : AntiSymm (=) chr_le.
Proof. intros c1 c2 H1 H2. apply code_point_inj. unfold chr_le in *. lia. Qed.

(** The lexicographic order on strings. *)

Lemma ascii_compare_refl (c : ascii) : Ascii.compare c c = Eq.
Proof. unfold Ascii.compare. apply N.compare_refl. Qed.

Lemma ascii_compare_Lt_trans (a b c : ascii) :
  Ascii.compare a b = Lt -> Ascii.compare b c = Lt -> Ascii.compare a c = Lt.
Proof. unfold Ascii.compare. rewrite !N.compare_lt_iff. lia. Qed.

Lemma string_leb_cons (a b : ascii) (s t : string) :
  String.leb (String a s) (String b t) = true <->
  Ascii.compare a b = Lt \/ (a = b /\ String.leb s t = true).
Proof.
  unfold String.leb. simpl.
  destruct (Ascii.compare a b) eqn:Hab.
  - apply Ascii.compare_eq_iff in Hab. subst b. split; [auto|].
    intros [H|[_ H]]; [discriminate|exact H].
  - split; auto.
  - split; [discriminate|].
    intros [H|[-> _]]; [discriminate|].
    rewrite ascii_compare_refl in Hab. discriminate.
Qed.

Lemma string_leb_trans (s1 s2 s3 : string) :
  String.leb s1 s2 = true -> String.leb s2 s3 = true -> String.leb s1 s3 = true.
Proof.
  revert s2 s3. induction s1 as [|a s1 IH]; intros [|b s2] [|c s3]; try done.
  rewrite !string_leb_cons.
  intros [Hab|[-> H12]] [Hbc|[-> H23]].
  - left. eapply ascii_compare_Lt_trans; eauto.
  - by left.
  - by left.
  - right. split; [done|]. eapply IH; eauto.
Qed.

#[global] Instance str_le_total : Total str_le.
Proof. intros s1 s2. apply String.leb_total. Qed.
#[global] Instance str_le_trans : Transitive str_le.
Proof. intros s1 s2 s3. apply string_leb_trans. Qed.
#[global] Instance str_le_antisym : AntiSymm (=) str_le.
Proof. intros s1 s2. apply String.leb_antisym. Qed.

(** ** The sort order of the codes *)

Definition parses (s : string) : bool :=
  match py_int s with Ok _ => true | Raise _ => false end.

Definition int_value (s : string) : Z :=
  match py_int s with Ok z => z | Raise _ => 0 end.

Lemma py_int_cases (s : string) :
  py_int s = Ok (int_value s) /\ parses s = true \/
  py_int s = Raise ValueError /\ parses s = false.
Proof.
  unfold parses, int_value, py_int.
  destruct (match skip_space (is_ascii_str s) s with
            | String "+" r => (false, r)
            | String "-" r => (true, r)
            | _ => (false, skip_space (is_ascii_str s) s)
            end) as [negative s2].
  destruct (scan_digits s2 0 false false) as [[v rest]|]; [|by right].
  destruct (skip_space (is_ascii_str s) rest); [by left|by right].
Qed.

Lemma comprehend_py_int (cs : list string) :
  comprehend py_int cs =
    if forallb parses cs then Ok (map int_value cs) else Raise ValueError.
Proof.
  induction cs as [|c cs IH]; [done|]. simpl. rewrite IH.
  destruct (py_int_cases c) as [[-> ->]|[-> ->]]; simpl; [|done].
  by destruct (forallb parses cs).
Qed.

(** [sort_codes] never raises, and this is the list it returns. *)
Definition sorted_isco_of (isco_categories : list string) : list string :=
  if forallb parses isco_categories
  then map py_str (merge_sort Z.le (map int_value isco_categories))
  else merge_sort str_le isco_categories.

Lemma sort_codes_eq (cs : list string) : sort_codes cs = Ok (sorted_isco_of cs).
Proof.
  unfold sort_codes, sorted_isco_of. rewrite comprehend_py_int.
  by destruct (forallb parses cs).
Qed.

Lemma forallb_perm {A} (p : A -> bool) (l1 l2 : list A) :
  l1 ≡ₚ l2 -> forallb p l1 = forallb p l2.
Proof.
  intros Hp. apply eq_true_iff_eq. rewrite !forallb_forall.
  split; intros H x Hx; apply H; revert Hx; rewrite <- !list_elem_of_In.
  - by rewrite Hp.
  - by rewrite <- Hp.
Qed.

Lemma sorted_isco_of_perm (cs1 cs2 : list string) :
  cs1 ≡ₚ cs2 -> sorted_isco_of cs1 = sorted_isco_of cs2.
Proof.
  intros Hp. unfold sorted_isco_of. rewrite (forallb_perm _ _ _ Hp).
  destruct (forallb parses cs2).
  - f_equal. apply (merge_sort_perm Z.le). by apply Permutation_map.
  - by apply (merge_sort_perm str_le).
Qed.

Lemma elem_of_sorted_isco_of (cs : list string) (k : string) :
  k ∈ sorted_isco_of cs <->
  if forallb parses cs then exists c, c ∈ cs /\ k = py_str (int_value c)
  else k ∈ cs.
Proof.
  unfold sorted_isco_of. destruct (forallb parses cs).
  - change (map py_str ?l) with (py_str <$> l).
    rewrite list_elem_of_fmap. split.
    + intros (z & -> & Hz). rewrite (elem_of_merge_sort Z.le) in Hz.
      change (map int_value cs) with (int_value <$> cs) in Hz.
      apply list_elem_of_fmap in Hz as (c & -> & Hc). eauto.
    + intros (c & Hc & ->). exists (int_value c). split; [done|].
      rewrite (elem_of_merge_sort Z.le).
      change (map int_value cs) with (int_value <$> cs).
      apply list_elem_of_fmap. eauto.
  - by rewrite (elem_of_merge_sort str_le).
Qed.

(** ** Single characters as numerals *)

Lemma py_int_char (c : ascii) :
  py_int (char_str c) =
    match digit_value c with Some d => Ok d | None => Raise ValueError end.
Proof. destruct c as [[] [] [] [] [] [] [] []]; vm_compute; reflexivity. Qed.

Lemma digit_value_range (c : ascii) (d : Z) :
  digit_value c = Some d -> 0 <= d <= 9.
Proof.
  unfold digit_value. case_match eqn:Hk; [|done]. intros [= <-].
  apply andb_prop in Hk as [H1 H2].
  apply N.leb_le in H1. apply N.leb_le in H2. lia.
Qed.

Lemma digit_value_inj (c1 c2 : ascii) (d : Z) :
  digit_value c1 = Some d -> digit_value c2 = Some d -> c1 = c2.
Proof.
  unfold digit_value.
  destruct ((48 <=? code_point c1) && (code_point c1 <=? 57))%N; [|done].
  destruct ((48 <=? code_point c2) && (code_point c2 <=? 57))%N; [|done].
  intros [= <-] [= Heq]. apply code_point_inj. lia.
Qed.

(** ** Finite ranges *)

Lemma forallb_seq (p : nat -> bool) (a len n : nat) :
  forallb p (seq a len) = true -> (a <= n < a + len)%nat -> p n = true.
Proof.
  rewrite forallb_forall. intros H Hn. apply H. apply in_seq. lia.
Qed.

Lemma NoDup_ascii_length (l : list ascii) : NoDup l -> (length l <= 256)%nat.
Proof.
  intros Hnd.
  assert (Hsub : nat_of_ascii <$> l ⊆+ seq 0 256).
  { apply NoDup_submseteq.
    - apply NoDup_fmap_2_strong; [|done].
      intros c1 c2 _ _ H.
      rewrite <- (ascii_nat_embedding c1), <- (ascii_nat_embedding c2).
      by rewrite H.
    - intros k (c & -> & _)%list_elem_of_fmap.
      apply list_elem_of_In, in_seq. pose proof (nat_ascii_bounded c). lia. }
  apply submseteq_length in Hsub.
  by rewrite length_fmap, length_seq in Hsub.
Qed.

(** ** Major groups *)

Definition first_char (code : string) : option ascii :=
  match code with String c _ => Some c | EmptyString => None end.

Lemma elem_of_collect_major_groups (codes : list string) (g : ascii) :
  g ∈ collect_major_groups codes <-> exists code, code ∈ codes /\ first_char code = Some g.
Proof.
  unfold collect_major_groups.
  assert (Hgen : forall acc : gset ascii,
    g ∈ foldl (fun major_groups code =>
                 match code with
                 | String c _ => major_groups ∪ {[ c ]}
                 | EmptyString => major_groups
                 end) acc codes <->
    g ∈ acc \/ exists code, code ∈ codes /\ first_char code = Some g).
  { induction codes as [|code codes IH]; intros acc; simpl.
    - split; [auto|]. intros [H|(code & H & _)]; [done|]. by apply elem_of_nil in H.
    - rewrite IH. destruct code as [|c rest].
      + split.
        * intros [H|(code & H & Hc)]; [by left|]. right. exists code. split; [by right|done].
        * intros [H|(code & H & Hc)]; [by left|].
          apply elem_of_cons in H as [->|H]; [done|]. right. eauto.
      + rewrite elem_of_union, elem_of_singleton. split.
        * intros [[H| ->]|(code & H & Hc)]; [by left| |].
          -- right. exists (String c rest). split; [by left|done].
          -- right. exists code. split; [by right|done].
        * intros [H|(code & H & Hc)]; [by left; left|].
          apply elem_of_cons in H as [->|H].
          -- simpl in Hc. injection Hc as ->. by left; right.
          -- right. eauto. }
  rewrite Hgen. split; [|by right]. intros [H|H]; [|done]. by apply elem_of_empty in H.
Qed.

Lemma elem_of_sorted_major_groups (codes : list string) (g : ascii) :
  g ∈ sorted_major_groups codes <-> exists code, code ∈ codes /\ first_char code = Some g.
Proof.
  unfold sorted_major_groups.
  by rewrite (elem_of_merge_sort chr_le), elem_of_elements, elem_of_collect_major_groups.
Qed.

Lemma NoDup_sorted_major_groups (codes : list string) : NoDup (sorted_major_groups codes).
Proof. apply (NoDup_merge_sort chr_le), NoDup_elements. Qed.

Lemma sorted_major_groups_length (codes : list string) :
  (length (sorted_major_groups codes) <= 256)%nat.
Proof. apply NoDup_ascii_length, NoDup_sorted_major_groups. Qed.

(** ** Base hues *)

Definition nonzero (x : float) : bool :=
  match x with S754_zero _ => false | _ => true end.

Lemma truediv_nonzero (x y : float) : nonzero y = true -> truediv x y = Ok (fdiv x y).
Proof. by destruct y. Qed.

Lemma of_nat_nonzero (n : nat) : (1 <= n <= 256)%nat -> nonzero (of_nat n) = true.
Proof.
  intros Hn. apply (forallb_seq (fun n => nonzero (of_nat n)) 1 256); [|lia].
  vm_compute. reflexivity.
Qed.

(** The value of [i * 0.8 / n]. *)
Definition base_hue (i n : nat) : float :=
  fdiv (fmul (of_nat i) (literal 8 10)) (of_nat n).

Lemma base_hue_of_Ok (i n : nat) :
  (1 <= n <= 256)%nat -> base_hue_of i n = Ok (base_hue i n).
Proof. intros Hn. apply truediv_nonzero, of_nat_nonzero, Hn. Qed.

Lemma base_hues_loop (n : nat) (l : list ascii) :
  (1 <= n <= 256)%nat -> NoDup l ->
  forall (k : nat) (acc : gmap ascii float),
  exists mgh,
    for_each (fun major_group_hue '(i, group) =>
                h <-! base_hue_of i n ;
                Ok (<[ group := h ]> major_group_hue))
             (imap (fun i x => ((k + i)%nat, x)) l) acc = Ok mgh /\
    (forall i g, l !! i = Some g -> mgh !! g = Some (base_hue (k + i) n)) /\
    (forall g, g ∉ l -> mgh !! g = acc !! g).
Proof.
  intros Hn. induction l as [|x l IH]; intros Hnd k acc.
  - exists acc. split; [done|]. split; [|done].
    intros i g Hi. by rewrite lookup_nil in Hi.
  - apply NoDup_cons in Hnd as [Hx Hnd]. simpl.
    rewrite base_hue_of_Ok by done. simpl.
    destruct (IH Hnd (S k) (<[ x := base_hue (k + 0) n ]> acc)) as (mgh & Hrun & Hin & Hout).
    exists mgh. split; [|split].
    + rewrite <- Hrun. f_equal. apply imap_ext. intros i y _. simpl.
      by rewrite Nat.add_succ_r.
    + intros [|i] g Hi; simpl in Hi.
      * injection Hi as ->. by rewrite (Hout g Hx), lookup_insert_eq.
      * rewrite (Hin i g Hi). by rewrite Nat.add_succ_r.
    + intros g Hg. apply not_elem_of_cons in Hg as [Hne Hg].
      rewrite (Hout g Hg). by apply lookup_insert_ne.
Qed.

Lemma assign_base_hues_spec (mgs : list ascii) :
  NoDup mgs -> (length mgs <= 256)%nat ->
  exists mgh,
    assign_base_hues mgs = Ok mgh /\
    (forall i g, mgs !! i = Some g -> mgh !! g = Some (base_hue i (length mgs))) /\
    (forall g, g ∉ mgs -> mgh !! g = None).
Proof.
  intros Hnd Hlen. destruct mgs as [|x l] eqn:Hm.
  - exists ∅. split; [done|]. split; [|done].
    intros i g Hi. by rewrite lookup_nil in Hi.
  - rewrite <- Hm in *.
    assert (Hn : (1 <= length mgs <= 256)%nat) by (subst mgs; simpl in *; lia).
    destruct (base_hues_loop (length mgs) mgs Hn Hnd 0 ∅) as (mgh & Hrun & Hin & Hout).
    exists mgh. split; [exact Hrun|]. split; [exact Hin|].
    intros g Hg. by rewrite (Hout g Hg).
Qed.

(** ** Hues *)

Definition second_digit (code : string) : option Z :=
  match code with
  | String _ (String c1 _) => digit_value c1
  | _ => None
  end.

(** The value of [0.8 / n]. *)
Definition slice_width (n : nat) : float := fdiv (literal 8 10) (of_nat n).

(** The value of [minor_variation] for a second digit [d], or without one. *)
Definition offset (n : nat) (od : option Z) : float :=
  match od with
  | Some d => fdiv (fmul (of_Z d) (slice_width n)) (of_Z 12)
  | None => zero
  end.

Definition hue_at (n i : nat) (od : option Z) : float :=
  mod_one (fadd (base_hue i n) (offset n od)).

Lemma minor_variation_of_eq (n : nat) (code : string) :
  (1 <= n <= 256)%nat ->
  minor_variation_of n code = Ok (offset n (second_digit code)).
Proof.
  intros Hn. destruct code as [|c0 [|c1 rest]]; try done.
  unfold minor_variation_of, second_digit. rewrite py_int_char.
  destruct (digit_value c1) as [d|]; [|done].
  cbn [bind offset]. unfold slice_width.
  rewrite (truediv_nonzero _ _ (of_nat_nonzero n Hn)).
  cbn [bind]. by rewrite truediv_nonzero.
Qed.

Lemma hue_of_eq (mgh : gmap ascii float) (n i : nat) (g : ascii) (code : string) :
  mgh !! g = Some (base_hue i n) -> (1 <= n <= 256)%nat ->
  hue_of mgh n g code = Ok (hue_at n i (second_digit code)).
Proof.
  intros Hg Hn. unfold hue_of, subscript. rewrite Hg. simpl.
  by rewrite minor_variation_of_eq.
Qed.

(** ** Colours *)

(** Lines 83-87 once the parity of the group is known. *)
Definition rgb_bytes (hue : float) (is_odd_group : bool) : result (Z * Z * Z) :=
  let saturation := if is_odd_group then literal 85 100 else literal 75 100 in
  let value := if is_odd_group then literal 9 10 else literal 95 100 in
  rgb <-! hsv_to_rgb hue saturation value ;
  let '(r, g, b) := rgb in
  ri <-! to_int (fmul r (of_Z 255)) ;
  gi <-! to_int (fmul g (of_Z 255)) ;
  bi <-! to_int (fmul b (of_Z 255)) ;
  Ok (ri, gi, bi).

Definition hex_of_bytes (rgb : Z * Z * Z) : string :=
  let '(ri, gi, bi) := rgb in
  ("#" ++ format_02x ri ++ format_02x gi ++ format_02x bi)%string.

Definition shade (hue : float) (is_odd_group : bool) : result string :=
  rgb <-! rgb_bytes hue is_odd_group ; Ok (hex_of_bytes rgb).

Lemma hex_color_of_eq (hue : float) (g : ascii) :
  hex_color_of hue g =
    match digit_value g with
    | Some d => shade hue (d mod 2 =? 1)
    | None => Raise ValueError
    end.
Proof.
  unfold hex_color_of, shade, rgb_bytes, hex_of_rgb. rewrite py_int_char.
  destruct (digit_value g) as [d|]; simpl; [|done].
  destruct (hsv_to_rgb _ _ _) as [[[r gr] b]|e]; simpl; [|done].
  destruct (to_int (fmul r _)); simpl; [|done].
  destruct (to_int (fmul gr _)); simpl; [|done].
  by destruct (to_int (fmul b _)).
Qed.

(** The colour computed for one non-empty code. *)
Definition color_of (mgh : gmap ascii float) (n : nat) (g : ascii) (code : string)
  : result string :=
  hue <-! hue_of mgh n g code ; hex_color_of hue g.

Lemma assign_color_eq mgh n colors g rest :
  assign_color mgh n colors (String g rest) =
    (hex_color <-! color_of mgh n g (String g rest) ;
     Ok (<[ String g rest := hex_color ]> colors)).
Proof. unfold assign_color, color_of. by destruct (hue_of mgh n g (String g rest)). Qed.

Lemma color_loop_Ok mgh n (codes : list string) :
  forall (acc m : gmap string string),
  for_each (assign_color mgh n) codes acc = Ok m ->
  (forall g rest, String g rest ∈ codes ->
     exists v, color_of mgh n g (String g rest) = Ok v /\ m !! String g rest = Some v) /\
  (forall k, k ∉ codes \/ k = EmptyString -> m !! k = acc !! k).
Proof.
  induction codes as [|code codes IH]; intros acc m Hrun; simpl in Hrun.
  - injection Hrun as ->. split; [|done]. intros g rest H. by apply elem_of_nil in H.
  - apply bind_Ok in Hrun as (acc' & Hbody & Hrun).
    destruct (IH acc' m Hrun) as [Hin Hout].
    destruct code as [|c r].
    + simpl in Hbody. injection Hbody as <-. split.
      * intros g rest [H|H]%elem_of_cons; [done|]. by apply Hin.
      * intros k Hk. apply Hout. destruct Hk as [Hk|Hk]; [|by right].
        left. by apply not_elem_of_cons in Hk as [_ Hk].
    + rewrite assign_color_eq in Hbody.
      apply bind_Ok in Hbody as (v & Hv & Hacc). injection Hacc as <-. split.
      * intros g rest [H|H]%elem_of_cons; [|by apply Hin].
        injection H as -> ->.
        destruct (decide (String c r ∈ codes)) as [Hc|Hc]; [by apply Hin|].
        exists v. split; [done|].
        rewrite (Hout _ (or_introl Hc)). apply lookup_insert_eq.
      * intros k Hk.
        assert (Hne : String c r <> k).
        { destruct Hk as [Hk| ->]; [|done]. apply not_elem_of_cons in Hk as [Hk _]. congruence. }
        rewrite Hout, lookup_insert_ne; [done|done|].
        destruct Hk as [Hk|Hk]; [|by right].
        left. by apply not_elem_of_cons in Hk as [_ Hk].
Qed.

Lemma color_loop_total mgh n (codes : list string) :
  (forall g rest, String g rest ∈ codes ->
     exists v, color_of mgh n g (String g rest) = Ok v) ->
  forall acc : gmap string string,
  exists m, for_each (assign_color mgh n) codes acc = Ok m.
Proof.
  induction codes as [|code codes IH]; intros Hall acc; simpl.
  - by exists acc.
  - assert (Hrest : forall g rest, String g rest ∈ codes ->
              exists v, color_of mgh n g (String g rest) = Ok v).
    { intros g rest H. apply Hall. by right. }
    destruct code as [|c r].
    + simpl. apply (IH Hrest).
    + rewrite assign_color_eq.
      destruct (Hall c r) as (v & Hv); [by left|]. rewrite Hv. simpl.
      apply (IH Hrest).
Qed.

(** ** Hexadecimal colour strings *)

Definition is_hex_digit (c : ascii) : bool :=
  let k := code_point c in
  (((48 <=? k) && (k <=? 57)) || ((97 <=? k) && (k <=? 102)))%N.

(** ['#'] followed by exactly six lowercase hexadecimal digits. *)
Definition is_hex_color (s : string) : bool :=
  match s with
  | String "#" r =>
      (String.length r =? 6)%nat && forallb is_hex_digit (list_ascii_of_string r)
  | _ => false
  end.

Definition is_byte (k : Z) : bool := (0 <=? k) && (k <=? 255).

(** ** Exhaustive checks over the parameters of a successful run

    When the assigner returns, every major group is a decimal digit, so there
    are between 1 and 10 groups; a code contributes its group, the index of
    the group and its second digit, if any. *)

Definition digit_options : list (option Z) :=
  None :: map (fun d => Some (Z.of_nat d)) (seq 0 10).

Lemma digit_options_complete (od : option Z) :
  (forall d, od = Some d -> 0 <= d <= 9) -> In od digit_options.
Proof.
  intros Hd. destruct od as [d|]; [|by left]. right.
  apply in_map_iff. exists (Z.to_nat d). specialize (Hd d eq_refl).
  split; [f_equal; lia|]. apply in_seq. lia.
Qed.

Lemma second_digit_option (code : string) : In (second_digit code) digit_options.
Proof.
  apply digit_options_complete. intros d Hd.
  destruct code as [|c0 [|c1 rest]]; try done. by apply (digit_value_range c1).
Qed.

Definition swatch_ok (n i : nat) (od : option Z) (is_odd_group : bool) : bool :=
  match rgb_bytes (hue_at n i od) is_odd_group with
  | Ok (r, g, b) =>
      is_byte r && is_byte g && is_byte b && is_hex_color (hex_of_bytes (r, g, b))
  | Raise _ => false
  end.

Definition swatch_cell_ok (n i : nat) (od : option Z) : bool :=
  swatch_ok n i od true && swatch_ok n i od false.
Definition swatch_col_ok (n i : nat) : bool :=
  forallb (swatch_cell_ok n i) digit_options.
Definition swatch_row_ok (n : nat) : bool :=
  forallb (swatch_col_ok n) (seq 0 n).

Lemma all_swatches_checked : forallb swatch_row_ok (seq 1 10) = true.
Proof. vm_cast_no_check (eq_refl true). Qed.

Lemma swatch_checked (n i : nat) (od : option Z) (is_odd_group : bool) :
  (1 <= n <= 10)%nat -> (i < n)%nat -> In od digit_options ->
  swatch_ok n i od is_odd_group = true.
Proof.
  intros Hn Hi Hod.
  assert (Hrow : swatch_row_ok n = true).
  { apply (forallb_seq swatch_row_ok 1 10 n all_swatches_checked). lia. }
  assert (Hcol : swatch_col_ok n i = true).
  { apply (forallb_seq (swatch_col_ok n) 0 n i Hrow). lia. }
  unfold swatch_col_ok in Hcol. rewrite forallb_forall in Hcol.
  apply Hcol in Hod. apply andb_prop in Hod as [H1 H2].
  by destruct is_odd_group.
Qed.

Lemma shade_checked (n i : nat) (od : option Z) (is_odd_group : bool) :
  (1 <= n <= 10)%nat -> (i < n)%nat -> In od digit_options ->
  exists r g b,
    shade (hue_at n i od) is_odd_group = Ok (hex_of_bytes (r, g, b)) /\
    (0 <= r <= 255) /\ (0 <= g <= 255) /\ (0 <= b <= 255) /\
    is_hex_color (hex_of_bytes (r, g, b)) = true.
Proof.
  intros Hn Hi Hod. pose proof (swatch_checked n i od is_odd_group Hn Hi Hod) as H.
  unfold swatch_ok in H. unfold shade.
  destruct (rgb_bytes (hue_at n i od) is_odd_group) as [[[r g] b]|e]; [|done].
  exists r, g, b.
  repeat (apply andb_prop in H as [H ?]).
  unfold is_byte in *.
  repeat match goal with
         | Hb : (_ && _) = true |- _ => apply andb_prop in Hb as [? ?]
         end.
  repeat split; try done; lia.
Qed.

(** ** A run of the assigner *)

Definition major_groups_of (cs : list string) : list ascii :=
  sorted_major_groups (sorted_isco_of cs).

Definition n_major_groups_of (cs : list string) : nat := length (major_groups_of cs).

(** The table of base hues of a run: group [i] of the sorted groups has the
    value of [i * 0.8 / n]. *)
Definition base_hues_of (cs : list string) (mgh : gmap ascii float) : Prop :=
  assign_base_hues (major_groups_of cs) = Ok mgh /\
  (forall i g, major_groups_of cs !! i = Some g ->
     mgh !! g = Some (base_hue i (n_major_groups_of cs))) /\
  (forall g, g ∉ major_groups_of cs -> mgh !! g = None).

Lemma base_hues_exist (cs : list string) : exists mgh, base_hues_of cs mgh.
Proof.
  apply assign_base_hues_spec.
  - apply NoDup_sorted_major_groups.
  - apply sorted_major_groups_length.
Qed.

Lemma generate_unfold (cs : list string) (mgh : gmap ascii float) :
  base_hues_of cs mgh ->
  generate_isco_grouped_colors cs =
    for_each (assign_color mgh (n_major_groups_of cs)) (sorted_isco_of cs) ∅.
Proof.
  intros (Hrun & _ & _). unfold generate_isco_grouped_colors.
  rewrite sort_codes_eq. cbn [bind].
  fold (major_groups_of cs). by rewrite Hrun.
Qed.

Lemma major_group_index (cs : list string) (g : ascii) (rest : string) :
  String g rest ∈ sorted_isco_of cs ->
  exists i, major_groups_of cs !! i = Some g /\
            (i < n_major_groups_of cs)%nat /\
            (1 <= n_major_groups_of cs <= 256)%nat.
Proof.
  intros Hin.
  assert (Hg : g ∈ major_groups_of cs).
  { apply elem_of_sorted_major_groups. by exists (String g rest). }
  apply list_elem_of_lookup in Hg as [i Hi]. exists i. split; [done|].
  pose proof (lookup_lt_Some _ _ _ Hi) as Hlt.
  pose proof (sorted_major_groups_length (sorted_isco_of cs)).
  unfold n_major_groups_of, major_groups_of in *. lia.
Qed.

Lemma color_of_run (cs : list string) (mgh : gmap ascii float) (i : nat)
    (g : ascii) (code : string) :
  base_hues_of cs mgh ->
  major_groups_of cs !! i = Some g ->
  (1 <= n_major_groups_of cs <= 256)%nat ->
  color_of mgh (n_major_groups_of cs) g code =
    match digit_value g with
    | Some d => shade (hue_at (n_major_groups_of cs) i (second_digit code)) (d mod 2 =? 1)
    | None => Raise ValueError
    end.
Proof.
  intros (_ & Hmgh & _) Hi Hn. unfold color_of.
  rewrite (hue_of_eq mgh _ i) by auto. cbn [bind]. apply hex_color_of_eq.
Qed.

Lemma digits_length (l : list ascii) :
  NoDup l -> (forall c, c ∈ l -> is_Some (digit_value c)) -> (length l <= 10)%nat.
Proof.
  intros Hnd Hdig.
  assert (Hsub : digit_value <$> l ⊆+ (fun d => Some (Z.of_nat d)) <$> seq 0 10).
  { apply NoDup_submseteq.
    - apply NoDup_fmap_2_strong; [|done].
      intros c1 c2 H1 _ Heq. destruct (Hdig c1 H1) as [d Hd].
      apply (digit_value_inj c1 c2 d); congruence.
    - intros od (c & -> & Hc)%list_elem_of_fmap.
      destruct (Hdig c Hc) as [d Hd]. rewrite Hd.
      apply list_elem_of_fmap. exists (Z.to_nat d).
      pose proof (digit_value_range c d Hd).
      split; [f_equal; lia|]. apply list_elem_of_In, in_seq. lia. }
  apply submseteq_length in Hsub.
  by rewrite !length_fmap, length_seq in Hsub.
Qed.

(** When the assigner returns, every major group is a decimal digit. *)
Lemma returned_groups_are_digits (cs : list string) (m : gmap string string) :
  generate_isco_grouped_colors cs = Ok m ->
  forall g, g ∈ major_groups_of cs -> is_Some (digit_value g).
Proof.
  intros Hgen g Hg. destruct (base_hues_exist cs) as [mgh Hmgh].
  rewrite (generate_unfold cs mgh Hmgh) in Hgen.
  apply color_loop_Ok in Hgen as [Hin _].
  apply elem_of_sorted_major_groups in Hg as ([|g' rest] & Hcode & Hfirst); [done|].
  injection Hfirst as ->.
  destruct (Hin g rest Hcode) as (v & Hv & _).
  destruct (major_group_index cs g rest Hcode) as (i & Hi & _ & Hn).
  rewrite (color_of_run cs mgh i g _ Hmgh Hi Hn) in Hv.
  destruct (digit_value g); [by eexists|done].
Qed.

Lemma returned_group_count (cs : list string) (m : gmap string string) :
  generate_isco_grouped_colors cs = Ok m -> (n_major_groups_of cs <= 10)%nat.
Proof.
  intros Hgen. apply digits_length.
  - apply NoDup_sorted_major_groups.
  - by apply (returned_groups_are_digits cs m).
Qed.

(** What a returned mapping holds: one entry per non-empty sorted code, the
    colour of its group, group index and second digit. *)
Lemma returned_entry (cs : list string) (m : gmap string string) (k v : string) :
  generate_isco_grouped_colors cs = Ok m ->
  m !! k = Some v ->
  exists g rest i gd,
    k = String g rest /\ k ∈ sorted_isco_of cs /\
    major_groups_of cs !! i = Some g /\ (i < n_major_groups_of cs)%nat /\
    (1 <= n_major_groups_of cs <= 10)%nat /\
    digit_value g = Some gd /\
    shade (hue_at (n_major_groups_of cs) i (second_digit k)) (gd mod 2 =? 1) = Ok v.
Proof.
  intros Hgen Hk. pose proof (returned_group_count cs m Hgen) as Hten.
  destruct (base_hues_exist cs) as [mgh Hmgh].
  rewrite (generate_unfold cs mgh Hmgh) in Hgen.
  apply color_loop_Ok in Hgen as [Hin Hout].
  destruct (decide (k ∈ sorted_isco_of cs)) as [Hmem|Hmem];
    [|by rewrite (Hout k (or_introl Hmem)) in Hk].
  destruct k as [|g rest]; [by rewrite (Hout _ (or_intror eq_refl)) in Hk|].
  destruct (Hin g rest Hmem) as (v' & Hv & Hlook).
  assert (v' = v) as -> by congruence.
  destruct (major_group_index cs g rest Hmem) as (i & Hi & Hlt & Hn).
  rewrite (color_of_run cs mgh i g _ Hmgh Hi Hn) in Hv.
  destruct (digit_value g) as [gd|] eqn:Hgd; [|done].
  exists g, rest, i, gd. repeat split; try done; lia.
Qed.

(** The assigner returns as soon as every non-empty sorted code starts with a
    decimal digit, and then every such code is a key. *)
Lemma returns_on_digit_groups (cs : list string) :
  (forall g rest, String g rest ∈ sorted_isco_of cs -> is_Some (digit_value g)) ->
  exists m, generate_isco_grouped_colors cs = Ok m /\
    forall k, is_Some (m !! k) <-> k ∈ sorted_isco_of cs /\ k <> EmptyString.
Proof.
  intros Hdig. destruct (base_hues_exist cs) as [mgh Hmgh].
  rewrite (generate_unfold cs mgh Hmgh).
  assert (Hten : (n_major_groups_of cs <= 10)%nat).
  { apply digits_length; [apply NoDup_sorted_major_groups|].
    intros g ([|g' rest] & Hcode & Hfirst)%elem_of_sorted_major_groups; [done|].
    injection Hfirst as ->. eauto. }
  assert (Hall : forall g rest, String g rest ∈ sorted_isco_of cs ->
            exists v, color_of mgh (n_major_groups_of cs) g (String g rest) = Ok v).
  { intros g rest Hcode.
    destruct (major_group_index cs g rest Hcode) as (i & Hi & Hlt & Hn).
    rewrite (color_of_run cs mgh i g _ Hmgh Hi Hn).
    destruct (Hdig g rest Hcode) as [gd ->].
    destruct (shade_checked (n_major_groups_of cs) i
                (second_digit (String g rest)) (gd mod 2 =? 1))
      as (r & gr & b & -> & _); [lia|done|apply second_digit_option|].
    by eexists. }
  destruct (color_loop_total mgh _ _ Hall ∅) as [m Hm].
  exists m. split; [done|].
  apply color_loop_Ok in Hm as [Hin Hout]. intros k. split.
  - intros [v Hv].
    destruct (decide (k ∈ sorted_isco_of cs)) as [Hmem|Hmem];
      [|by rewrite (Hout k (or_introl Hmem)) in Hv].
    split; [done|]. intros ->. by rewrite (Hout _ (or_intror eq_refl)) in Hv.
  - intros [Hmem Hne]. destruct k as [|g rest]; [done|].
    destruct (Hin g rest Hmem) as (v & _ & Hv). by exists v.
Qed.

(** * The claims about the colour assigner *)

(** C6.  Every value of a mapping returned by the colour assigner is ['#']
    followed by six lowercase hexadecimal digits: three channels, each an
    integer between 0 and 255 printed on two digits. *)
Theorem colors_are_hex (cs : list string) (m : gmap string string) (k v : string) :
  generate_isco_grouped_colors cs = Ok m ->
  m !! k = Some v ->
  is_hex_color v = true /\
  exists r g b : Z,
    (0 <= r <= 255) /\ (0 <= g <= 255) /\ (0 <= b <= 255) /\
    v = ("#" ++ format_02x r ++ format_02x g ++ format_02x b)%string.
Proof.
  intros Hgen Hk.
  destruct (returned_entry cs m k v Hgen Hk)
    as (g & rest & i & gd & -> & _ & _ & Hlt & Hn & _ & Hshade).
  destruct (shade_checked (n_major_groups_of cs) i
              (second_digit (String g rest)) (gd mod 2 =? 1) Hn Hlt
              (second_digit_option _))
    as (r & gr & b & Hv & Hr & Hg & Hb & Hhex).
  rewrite Hv in Hshade. injection Hshade as <-.
  split; [exact Hhex|]. exists r, gr, b. auto.
Qed.

Lemma colors_are_hex_witness :
  is_hex_color "#e54922" = true /\
  exists r g b : Z,
    (0 <= r <= 255) /\ (0 <= g <= 255) /\ (0 <= b <= 255) /\
    "#e54922" = ("#" ++ format_02x r ++ format_02x g ++ format_02x b)%string.
Proof.
  assert (Hgen : generate_isco_grouped_colors ["11"; "12"; "21"] =
                 Ok (list_to_map [("11", "#e54922"); ("12", "#e57022");
                                  ("21", "#3cf2a9")]))
    by (vm_compute; reflexivity).
  apply (colors_are_hex _ _ "11" "#e54922" Hgen).
  vm_compute. reflexivity.
Defined.

(** C4, at the input that breaks it.  The code ["a1"] does not parse, so the
    codes are sorted as strings; its major group ['a'] then reaches
    [int(major_group)] on line 82, outside any [try], and the [ValueError]
    leaves the function. *)
Theorem non_digit_group_raises :
  sort_codes ["a1"] = Ok ["a1"] /\
  generate_isco_grouped_colors ["a1"] = Raise ValueError.
Proof. split; vm_compute; reflexivity. Qed.

(** C5.  The assigner gives the same result, mapping or exception, on any two
    orderings of the same codes. *)
Theorem order_independent (cs1 cs2 : list string) :
  cs1 ≡ₚ cs2 ->
  generate_isco_grouped_colors cs1 = generate_isco_grouped_colors cs2.
Proof.
  intros Hp. unfold generate_isco_grouped_colors.
  by rewrite !sort_codes_eq, (sorted_isco_of_perm cs1 cs2 Hp).
Qed.

Lemma order_independent_witness :
  generate_isco_grouped_colors ["11"; "12"; "21"] =
  generate_isco_grouped_colors ["21"; "11"; "12"].
Proof.
  apply order_independent.
  apply (Permutation_app_comm ["11"; "12"] ["21"]).
Defined.

(** C1, at an input that breaks it.  The code ["01"] parses as the integer 1
    and comes back as ["1"]: the returned mapping has the key ["1"], which is
    not an input code, and lacks the input code ["01"]. *)
Lemma leading_zero_changes_key :
  exists m, generate_isco_grouped_colors ["01"] = Ok m /\
            m !! "01" = None /\ is_Some (m !! "1") /\
            dom m <> (list_to_set ["01"] : gset string).
Proof.
  exists {[ "1" := "#e52222" ]}. split; [vm_compute; reflexivity|].
  split; [vm_compute; reflexivity|]. split; [by eexists|].
  intros Heq.
  assert (Hin : "01" ∈ dom ({[ "1" := "#e52222" ]} : gmap string string)).
  { rewrite Heq. set_solver. }
  rewrite dom_singleton_L in Hin. set_solver.
Qed.

(** C1, amended.  When every code starts with a decimal digit and, should
    all of them parse as integers, each one is already the decimal rendering
    of its integer, the assigner returns a mapping whose key set is exactly
    the set of distinct input codes. *)
Theorem keys_are_codes (cs : list string) :
  (forall c, c ∈ cs -> exists g rest, c = String g rest /\ is_Some (digit_value g)) ->
  (forallb parses cs = true -> forall c, c ∈ cs -> py_str (int_value c) = c) ->
  exists m, generate_isco_grouped_colors cs = Ok m /\
            dom m = (list_to_set cs : gset string).
Proof.
  intros Hdigit Hcanon.
  assert (Hsame : forall k, k ∈ sorted_isco_of cs <-> k ∈ cs).
  { intros k. rewrite elem_of_sorted_isco_of.
    destruct (forallb parses cs) eqn:Hall; [|done]. split.
    - intros (c & Hc & ->). by rewrite (Hcanon eq_refl c Hc).
    - intros Hk. exists k. split; [done|]. by rewrite (Hcanon eq_refl k Hk). }
  destruct (returns_on_digit_groups cs) as (m & Hgen & Hkeys).
  { intros g rest Hin. apply Hsame in Hin.
    destruct (Hdigit _ Hin) as (g' & rest' & Heq & Hd). by injection Heq as -> ->. }
  exists m. split; [done|]. apply set_eq. intros k.
  rewrite elem_of_dom, Hkeys, Hsame, elem_of_list_to_set. split; [by intros [? _]|].
  intros Hk. split; [done|]. by destruct (Hdigit k Hk) as (g & rest & -> & _).
Qed.

Lemma keys_are_codes_witness :
  exists m, generate_isco_grouped_colors ["11"; "12"; "21"] = Ok m /\
            dom m = (list_to_set ["11"; "12"; "21"] : gset string).
Proof.
  apply keys_are_codes.
  - intros c Hc. apply list_elem_of_In in Hc.
    destruct Hc as [<-|[<-|[<-|[]]]]; do 2 eexists; (split; [reflexivity|]);
      vm_compute; by eexists.
  - intros _ c Hc. apply list_elem_of_In in Hc.
    destruct Hc as [<-|[<-|[<-|[]]]]; vm_compute; reflexivity.
Defined.

(** ** Exact values of hues *)

Definition Qltb (x y : Q) : bool := negb (Qle_bool y x).

Lemma Qltb_lt (x y : Q) : Qltb x y = true -> (x < y)%Q.
Proof.
  unfold Qltb. intros H. apply Qnot_le_lt. intros Hle.
  apply Qle_bool_iff in Hle. rewrite Hle in H. discriminate.
Qed.

Lemma Qle_bool_le (x y : Q) : Qle_bool x y = true -> (x <= y)%Q.
Proof. apply Qle_bool_iff. Qed.

(** The rounding allowance: a relative error of [2^-51]. *)
Definition rounding : Q := 1 # (2 ^ 51).

(** [h] lies in [0, 0.8) and is [i * 0.8 / n] up to rounding. *)
Definition base_hue_in_range (n i : nat) (h : float) : bool :=
  let b := to_Q h in
  let ideal := inject_Z (4 * Z.of_nat i) in
  Qle_bool 0 b && Qltb b (4 # 5) &&
  Qle_bool (Qabs (b * inject_Z (5 * Z.of_nat n) - ideal)) (ideal * rounding).

(** The range check runs over every [n] up to 256 on the machine's doubles,
    Rocq's primitive floats, which the standard library specifies by the
    same [SpecFloat] operations. *)
Definition machine_of_nat (k : nat) : PrimFloat.float :=
  PrimFloat.of_uint63 (Uint63.of_Z (Z.of_nat k)).

Definition machine_base_hue (i n : nat) : PrimFloat.float :=
  PrimFloat.div
    (PrimFloat.mul (machine_of_nat i)
       (PrimFloat.div (machine_of_nat 8) (machine_of_nat 10)))
    (machine_of_nat n).

Lemma machine_of_nat_spec (k : nat) :
  (k <= 256)%nat -> FloatOps.Prim2SF (machine_of_nat k) = of_nat k.
Proof.
  intros Hk. unfold machine_of_nat, of_nat, of_Z.
  rewrite FloatAxioms.of_uint63_spec, Uint63.of_Z_spec.
  rewrite Z.mod_small; [reflexivity|].
  change Uint63.wB with (2 ^ 63). lia.
Qed.

Lemma machine_base_hue_spec (i n : nat) :
  (i <= 256)%nat -> (n <= 256)%nat ->
  FloatOps.Prim2SF (machine_base_hue i n) = base_hue i n.
Proof.
  intros Hi Hn. unfold machine_base_hue, base_hue, literal.
  rewrite !FloatAxioms.div_spec, FloatAxioms.mul_spec, FloatAxioms.div_spec.
  rewrite !machine_of_nat_spec by lia. reflexivity.
Qed.

Definition base_cell_ok (n i : nat) : bool :=
  base_hue_in_range n i (FloatOps.Prim2SF (machine_base_hue i n)).

Definition base_row_ok (n : nat) : bool := forallb (base_cell_ok n) (seq 0 n).

Lemma all_base_hues_checked : forallb base_row_ok (seq 1 256) = true.
Proof. vm_cast_no_check (eq_refl true). Qed.

Lemma base_hue_checked (n i : nat) :
  (1 <= n <= 256)%nat -> (i < n)%nat ->
  base_hue_in_range n i (base_hue i n) = true.
Proof.
  intros Hn Hi.
  assert (Hrow : base_row_ok n = true).
  { apply (forallb_seq base_row_ok 1 256 n all_base_hues_checked). lia. }
  assert (Hcell : base_cell_ok n i = true).
  { apply (forallb_seq (base_cell_ok n) 0 n i Hrow). lia. }
  unfold base_cell_ok in Hcell.
  by rewrite machine_base_hue_spec in Hcell by lia.
Qed.

(** The major groups as the claim counts them: the distinct first
    characters of the input codes, sorted. *)
Definition first_characters_of (isco_categories : list string) : list ascii :=
  sorted_major_groups isco_categories.

(** C7, at an input that breaks it.  The first characters of ["01"] and
    ["1"] are ['0'] and ['1'], so the claim counts two groups and puts ['1']
    at [1 * 0.8 / 2]; the codes are sorted as the integers 1 and 1 and
    rendered ["1"] both, so the run has the single group ['1'], at base hue
    0, and no base hue for ['0']. *)
Lemma leading_zero_merges_groups :
  let cs := ["01"; "1"] in
  first_characters_of cs = ["0"; "1"]%char /\
  sort_codes cs = Ok ["1"; "1"] /\
  major_groups_of cs = ["1"]%char /\
  exists mgh h,
    assign_base_hues (major_groups_of cs) = Ok mgh /\
    mgh !! "0"%char = None /\
    mgh !! "1"%char = Some h /\
    (to_Q h == 0)%Q /\
    h <> fdiv (fmul (of_nat 1) (literal 8 10)) (of_nat 2).
Proof.
  split; [vm_compute; reflexivity|]. split; [vm_compute; reflexivity|].
  split; [vm_compute; reflexivity|].
  exists {[ "1"%char := zero ]}, zero.
  split; [vm_compute; reflexivity|]. split; [vm_compute; reflexivity|].
  split; [vm_compute; reflexivity|]. split; [reflexivity|].
  vm_compute. discriminate.
Qed.

(** Codes that are their own renderings are sorted without being changed. *)
Lemma canonical_codes_kept (cs : list string) :
  (forallb parses cs = true -> forall c, c ∈ cs -> py_str (int_value c) = c) ->
  forall k, k ∈ sorted_isco_of cs <-> k ∈ cs.
Proof.
  intros Hcanon k. rewrite elem_of_sorted_isco_of.
  destruct (forallb parses cs) eqn:Hall; [|done]. split.
  - intros (c & Hc & ->). by rewrite (Hcanon eq_refl c Hc).
  - intros Hk. exists k. split; [done|]. by rewrite (Hcanon eq_refl k Hk).
Qed.

Lemma canonical_groups (cs : list string) :
  (forallb parses cs = true -> forall c, c ∈ cs -> py_str (int_value c) = c) ->
  major_groups_of cs = first_characters_of cs.
Proof.
  intros Hcanon. unfold major_groups_of, first_characters_of, sorted_major_groups.
  f_equal. f_equal. apply set_eq. intros g. rewrite !elem_of_collect_major_groups.
  split; intros (code & Hcode & Hg); exists code;
    (split; [by apply (canonical_codes_kept cs Hcanon)|done]).
Qed.

(** C7, amended.  When the codes, should all of them parse as integers, are
    each the decimal rendering of their integer, the major groups of the
    run are the distinct first characters of the input codes, sorted; with
    [n] of them, the one at index [i] gets the base hue [i * 0.8 / n],
    evaluated in double precision.  That value lies in [0, 0.8), within a
    relative [2^-51] of the exact [4 i / (5 n)]: the base hues step evenly
    through four fifths of the hue circle and none falls in the last
    fifth. *)
Theorem base_hues_evenly_spread (cs : list string) :
  (forallb parses cs = true -> forall c, c ∈ cs -> py_str (int_value c) = c) ->
  exists mgh,
    major_groups_of cs = first_characters_of cs /\
    assign_base_hues (major_groups_of cs) = Ok mgh /\
    (forall g, g ∉ first_characters_of cs -> mgh !! g = None) /\
    forall i g, first_characters_of cs !! i = Some g ->
      let n := length (first_characters_of cs) in
      let h := fdiv (fmul (of_nat i) (literal 8 10)) (of_nat n) in
      mgh !! g = Some h /\
      (0 <= to_Q h)%Q /\ (to_Q h < 4 # 5)%Q /\
      (Qabs (to_Q h * inject_Z (5 * Z.of_nat n) - inject_Z (4 * Z.of_nat i))
         <= inject_Z (4 * Z.of_nat i) * rounding)%Q.
Proof.
  intros Hcanon. pose proof (canonical_groups cs Hcanon) as Hgroups.
  destruct (base_hues_exist cs) as (mgh & Hrun & Hin & Hout).
  exists mgh. split; [exact Hgroups|]. split; [exact Hrun|].
  rewrite <- Hgroups. split; [exact Hout|]. intros i g Hi n h.
  split; [exact (Hin i g Hi)|].
  pose proof (lookup_lt_Some _ _ _ Hi) as Hlt.
  pose proof (sorted_major_groups_length (sorted_isco_of cs)) as Hlen.
  assert (Hn : (1 <= n <= 256)%nat).
  { unfold n, major_groups_of in *. lia. }
  pose proof (base_hue_checked n i Hn Hlt) as Hok.
  fold (base_hue i n) in h. unfold base_hue_in_range in Hok. cbv zeta in Hok.
  apply andb_prop in Hok as [Hok H3]. apply andb_prop in Hok as [H1 H2].
  split; [by apply Qle_bool_le|]. split; [by apply Qltb_lt|by apply Qle_bool_le].
Qed.

Lemma base_hues_evenly_spread_witness :
  let cs := ["11"; "12"; "21"; "31"] in
  exists mgh,
    major_groups_of cs = first_characters_of cs /\
    assign_base_hues (major_groups_of cs) = Ok mgh /\
    (forall g, g ∉ first_characters_of cs -> mgh !! g = None) /\
    forall i g, first_characters_of cs !! i = Some g ->
      let n := length (first_characters_of cs) in
      let h := fdiv (fmul (of_nat i) (literal 8 10)) (of_nat n) in
      mgh !! g = Some h /\
      (0 <= to_Q h)%Q /\ (to_Q h < 4 # 5)%Q /\
      (Qabs (to_Q h * inject_Z (5 * Z.of_nat n) - inject_Z (4 * Z.of_nat i))
         <= inject_Z (4 * Z.of_nat i) * rounding)%Q.
Proof.
  intros cs. apply (base_hues_evenly_spread cs).
  intros _ c Hc. apply list_elem_of_In in Hc.
  destruct Hc as [<-|[<-|[<-|[<-|[]]]]]; vm_compute; reflexivity.
Defined.

(** ** Minor variation *)

(** The offset for digit [d] lies in [0, slice) and is [d/12] of the slice
    width [0.8 / n] up to rounding. *)
Definition offset_in_range (n : nat) (d : Z) : bool :=
  let o := to_Q (offset n (Some d)) in
  let s := to_Q (slice_width n) in
  Qle_bool 0 o && Qltb o s &&
  Qle_bool (Qabs (12 * o - inject_Z d * s)) (inject_Z d * s * rounding).

Definition offset_row_ok (n : nat) : bool :=
  forallb (fun d => offset_in_range n (Z.of_nat d)) (seq 0 10).

Lemma all_offsets_checked : forallb offset_row_ok (seq 1 10) = true.
Proof. vm_compute. reflexivity. Qed.

Lemma offset_checked (n : nat) (d : Z) :
  (1 <= n <= 10)%nat -> 0 <= d <= 9 -> offset_in_range n d = true.
Proof.
  intros Hn Hd.
  assert (Hrow : offset_row_ok n = true).
  { apply (forallb_seq offset_row_ok 1 10 n all_offsets_checked). lia. }
  unfold offset_row_ok in Hrow.
  apply (forallb_seq _ 0 10 (Z.to_nat d)) in Hrow; [|lia].
  cbv beta in Hrow. by rewrite Z2Nat.id in Hrow by lia.
Qed.

Lemma base_hues_of_intro (cs : list string) (mgh : gmap ascii float) :
  assign_base_hues (major_groups_of cs) = Ok mgh -> base_hues_of cs mgh.
Proof.
  intros Hrun. destruct (base_hues_exist cs) as [mgh' Hmgh'].
  assert (mgh' = mgh) as <-; [|done].
  destruct Hmgh' as (Hrun' & _). congruence.
Qed.

(** C2, at an input that breaks it.  For the single code ["19"] there is one
    major group, the slice width is 0.8 and the minor variation is 0.6, nine
    twelfths of the slice width and not at most one twelfth. *)
Lemma ninth_digit_exceeds_twelfth :
  exists m mv,
    generate_isco_grouped_colors ["19"] = Ok m /\ is_Some (m !! "19") /\
    n_major_groups_of ["19"] = 1%nat /\
    minor_variation_of 1 "19" = Ok mv /\
    ~ (to_Q mv <= (1 # 12) * to_Q (slice_width 1))%Q.
Proof.
  do 2 eexists. split; [vm_compute; reflexivity|].
  split; [vm_compute; by eexists|]. split; [vm_compute; reflexivity|].
  split; [vm_compute; reflexivity|].
  apply Qlt_not_le, Qltb_lt. vm_compute. reflexivity.
Qed.

(** C2, amended.  For a key [k] of a returned mapping, with [n] major groups:
    the minor variation is 0 when [k] has one character or its second
    character is not a decimal digit, no error escaping; for a second digit
    [d] it is [d * (0.8 / n) / 12] in double precision, that is [d] twelfths
    of the slice width up to rounding (nine twelfths for [d = 9]), at least
    0 and below one slice width.  The hue is the base hue of the group plus
    this variation, taken modulo 1.0. *)
Theorem minor_variation_is_twelfths (cs : list string) (m : gmap string string)
    (k : string) :
  generate_isco_grouped_colors cs = Ok m ->
  is_Some (m !! k) ->
  let n := n_major_groups_of cs in
  exists mgh g rest base mv,
    assign_base_hues (major_groups_of cs) = Ok mgh /\
    k = String g rest /\ mgh !! g = Some base /\
    minor_variation_of n k = Ok mv /\
    hue_of mgh n g k = Ok (mod_one (fadd base mv)) /\
    match rest with
    | String c1 _ =>
        match digit_value c1 with
        | Some d =>
            mv = fdiv (fmul (of_Z d) (fdiv (literal 8 10) (of_nat n))) (of_Z 12) /\
            (0 <= to_Q mv)%Q /\ (to_Q mv < to_Q (slice_width n))%Q /\
            (Qabs (12 * to_Q mv - inject_Z d * to_Q (slice_width n))
               <= inject_Z d * to_Q (slice_width n) * rounding)%Q
        | None => mv = zero
        end
    | EmptyString => mv = zero
    end.
Proof.
  intros Hgen [v Hk] n.
  destruct (returned_entry cs m k v Hgen Hk)
    as (g & rest & i & gd & -> & _ & Hi & Hlt & Hn & _ & _).
  destruct (base_hues_exist cs) as [mgh Hmgh].
  pose proof Hmgh as (Hrun & Hin & _).
  assert (Hn' : (1 <= n <= 256)%nat) by (unfold n; lia).
  exists mgh, g, rest, (base_hue i n), (offset n (second_digit (String g rest))).
  split; [done|]. split; [done|]. split; [by apply Hin|].
  split; [by apply minor_variation_of_eq|].
  split; [by apply hue_of_eq; [apply Hin|]|].
  destruct rest as [|c1 rest']; [done|]. cbn [second_digit].
  destruct (digit_value c1) as [d|] eqn:Hd; [|done].
  split; [done|].
  pose proof (offset_checked n d Hn (digit_value_range c1 d Hd)) as Hok.
  unfold offset_in_range in Hok. cbv zeta in Hok.
  apply andb_prop in Hok as [Hok H3]. apply andb_prop in Hok as [H1 H2].
  split; [by apply Qle_bool_le|]. split; [by apply Qltb_lt|by apply Qle_bool_le].
Qed.

Lemma minor_variation_is_twelfths_witness :
  exists mgh g rest base mv,
    assign_base_hues (major_groups_of ["11"; "2a"; "3"]) = Ok mgh /\
    "2a" = String g rest /\ mgh !! g = Some base /\
    minor_variation_of 3 "2a" = Ok mv /\
    hue_of mgh 3 g "2a" = Ok (mod_one (fadd base mv)) /\
    match rest with
    | String c1 _ =>
        match digit_value c1 with
        | Some d =>
            mv = fdiv (fmul (of_Z d) (fdiv (literal 8 10) (of_nat 3))) (of_Z 12) /\
            (0 <= to_Q mv)%Q /\ (to_Q mv < to_Q (slice_width 3))%Q /\
            (Qabs (12 * to_Q mv - inject_Z d * to_Q (slice_width 3))
               <= inject_Z d * to_Q (slice_width 3) * rounding)%Q
        | None => mv = zero
        end
    | EmptyString => mv = zero
    end.
Proof.
  assert (Hgen : generate_isco_grouped_colors ["11"; "2a"; "3"] =
                 Ok (list_to_map [("11", "#e53c22"); ("2a", "#85f23c");
                                  ("3", "#22bee5")]))
    by (vm_compute; reflexivity).
  assert (Hk : is_Some ((list_to_map [("11", "#e53c22"); ("2a", "#85f23c");
                                      ("3", "#22bee5")] : gmap string string) !! "2a"))
    by (vm_compute; by eexists).
  exact (minor_variation_is_twelfths _ _ "2a" Hgen Hk).
Defined.

(** ** Grouping of hues *)

(** Distance between two hues on the circle of circumference 1. *)
Definition circ_dist (x y : Q) : Q :=
  let d := Qabs (x - y) in Qmin d (1 - d).

(** The second digit of a code as a number, 0 without one. *)
Definition variation_digit (code : string) : Z := default 0 (second_digit code).

(** Two second digits that keep the codes nearer to each other than to the
    next group's base hue: [2 * max - min < 12]. *)
Definition narrow_pair (da db : Z) : bool :=
  2 * Z.max da db - Z.min da db <? 12.

(** Hues are compared on a grid of step [2^-64], on which every hue of a
    returned mapping lies. *)
Definition grid : positive := (2 ^ 64)%positive.

Definition ticks (x : float) : option Z :=
  match x with
  | S754_zero _ => Some 0
  | S754_finite false m e =>
      if -64 <=? e then Some (Z.pos m * 2 ^ (e + 64)) else None
  | _ => None
  end.

Definition circ_ticks (a b : Z) : Z :=
  let d := Z.abs (a - b) in Z.min d (Z.pos grid - d).

Definition closer_ticks (a b g : option Z) : bool :=
  match a, b, g with
  | Some x, Some y, Some z =>
      (circ_ticks x y <? circ_ticks x z) && (circ_ticks x y <? circ_ticks y z)
  | _, _, _ => false
  end.

Lemma ticks_to_Q (x : float) (z : Z) : ticks x = Some z -> (to_Q x == z # grid)%Q.
Proof.
  destruct x as [s|s| |s m e]; try done.
  - intros [= <-]. reflexivity.
  - destruct s; [done|]. cbn [ticks to_Q].
    destruct (-64 <=? e) eqn:He; [|done]. apply Z.leb_le in He. intros [= <-].
    assert (Hgrid : Z.pos grid = 2 ^ 64) by reflexivity.
    destruct (0 <=? e) eqn:Hpos.
    + apply Z.leb_le in Hpos. unfold Qeq, inject_Z. cbn [Qnum Qden].
      rewrite Hgrid, Z.pow_add_r by lia. lia.
    + apply Z.leb_gt in Hpos. unfold Qeq. cbn [Qnum Qden].
      rewrite Z2Pos.id by (apply Z.pow_pos_nonneg; lia).
      rewrite Hgrid, <- Z.mul_assoc, <- Z.pow_add_r by lia.
      f_equal. f_equal. lia.
Qed.

Lemma circ_dist_grid (a b : Z) :
  (circ_dist (a # grid) (b # grid) == circ_ticks a b # grid)%Q.
Proof.
  unfold circ_dist, circ_ticks. cbv zeta.
  assert (Hsub : ((a # grid) - (b # grid) == (a - b) # grid)%Q).
  { unfold Qeq, Qminus, Qplus, Qopp. cbn [Qnum Qden].
    rewrite Pos2Z.inj_mul. ring. }
  rewrite Hsub. change (Qabs ((a - b) # grid)) with (Z.abs (a - b) # grid).
  set (d := Z.abs (a - b)).
  assert (Hone : (1 - (d # grid) == (Z.pos grid - d) # grid)%Q).
  { unfold Qeq, Qminus, Qplus, Qopp. cbn [Qnum Qden].
    rewrite ?Pos2Z.inj_mul. ring. }
  rewrite Hone.
  destruct (Z.le_ge_cases d (Z.pos grid - d)) as [Hle|Hge].
  - rewrite Z.min_l by done. apply Q.min_l.
    unfold Qle. cbn [Qnum Qden]. nia.
  - rewrite Z.min_r by done. apply Q.min_r.
    unfold Qle. cbn [Qnum Qden]. nia.
Qed.

#[global] Instance circ_dist_proper : Proper (Qeq ==> Qeq ==> Qeq) circ_dist.
Proof.
  intros x x' Hx y y' Hy. unfold circ_dist. cbv zeta. by rewrite Hx, Hy.
Qed.

Lemma closer_on_grid (ha hb hg : float) :
  closer_ticks (ticks ha) (ticks hb) (ticks hg) = true ->
  (circ_dist (to_Q ha) (to_Q hb) < circ_dist (to_Q ha) (to_Q hg))%Q /\
  (circ_dist (to_Q ha) (to_Q hb) < circ_dist (to_Q hb) (to_Q hg))%Q.
Proof.
  unfold closer_ticks.
  destruct (ticks ha) as [a|] eqn:Ha; [|done].
  destruct (ticks hb) as [b|] eqn:Hb; [|done].
  destruct (ticks hg) as [g|] eqn:Hg; [|done].
  intros [H1 H2]%andb_prop. apply Z.ltb_lt in H1. apply Z.ltb_lt in H2.
  rewrite (ticks_to_Q ha a Ha), (ticks_to_Q hb b Hb), (ticks_to_Q hg g Hg).
  rewrite !circ_dist_grid. unfold Qlt. cbn [Qnum Qden].
  split; apply Z.mul_lt_mono_pos_r; done.
Qed.

(** The circle is [15 n] steps long, a step being a twelfth of the slice
    width [0.8 / n]: group [i] starts at step [12 i] and a second digit [d]
    moves a code [d] steps on.  [placed n p h] says that the hue [h] lies
    on the grid within [2^19] of step [p], both scaled by [15 n]. *)
Definition placed (n : nat) (p : Z) (h : float) : bool :=
  match ticks h with
  | Some t => Z.abs (15 * Z.of_nat n * t - p * Z.pos grid) <=? 2 ^ 19
  | None => false
  end.

Definition placed_col_ok (n i : nat) : bool :=
  placed n (12 * Z.of_nat i) (base_hue i n) &&
  forallb (fun od => placed n (12 * Z.of_nat i + default 0 od) (hue_at n i od))
          digit_options.

Definition placed_row_ok (n : nat) : bool := forallb (placed_col_ok n) (seq 0 n).

Lemma all_hues_placed : forallb placed_row_ok (seq 1 10) = true.
Proof. vm_cast_no_check (eq_refl true). Qed.

Lemma placed_checked (n i : nat) (od : option Z) :
  (1 <= n <= 10)%nat -> (i < n)%nat -> In od digit_options ->
  placed n (12 * Z.of_nat i) (base_hue i n) = true /\
  placed n (12 * Z.of_nat i + default 0 od) (hue_at n i od) = true.
Proof.
  intros Hn Hi Hod.
  assert (Hrow : placed_row_ok n = true).
  { apply (forallb_seq placed_row_ok 1 10 n all_hues_placed). lia. }
  assert (Hcol : placed_col_ok n i = true).
  { apply (forallb_seq (placed_col_ok n) 0 n i Hrow). lia. }
  unfold placed_col_ok in Hcol. apply andb_prop in Hcol as [Hbase Hcol].
  split; [exact Hbase|]. rewrite forallb_forall in Hcol. by apply Hcol.
Qed.

(** Second digits [da] and [db] of two codes of one group and [dc] of a code
    of another group that keep the first two codes nearer to each other
    than to the third: [|da - db| + max |da - dc| |db - dc| < 12]. *)
Definition narrow_triple (da db dc : Z) : bool :=
  Z.abs (da - db) + Z.max (Z.abs (da - dc)) (Z.abs (db - dc)) <? 12.

Lemma narrow_pair_triple (da db : Z) :
  0 <= da -> 0 <= db -> narrow_pair da db = narrow_triple da db 0.
Proof.
  intros Ha Hb. unfold narrow_pair, narrow_triple.
  destruct (Z.ltb_spec (2 * Z.max da db - Z.min da db) 12),
    (Z.ltb_spec (Z.abs (da - db) + Z.max (Z.abs (da - 0)) (Z.abs (db - 0))) 12);
    try done; lia.
Qed.

Lemma scaled_circ_ticks (N a b : Z) :
  0 < N ->
  N * circ_ticks a b =
    Z.min (Z.abs (N * a - N * b)) (N * Z.pos grid - Z.abs (N * a - N * b)).
Proof.
  intros HN. unfold circ_ticks. cbv zeta.
  assert (Habs : Z.abs (N * a - N * b) = N * Z.abs (a - b)).
  { rewrite <- Z.mul_sub_distr_l, Z.abs_mul, (Z.abs_eq N); lia. }
  rewrite Habs, <- Z.mul_sub_distr_l.
  symmetry. apply Z.mul_min_distr_nonneg_l. lia.
Qed.

(** Three points within [2^19] of the steps of two codes of group [i] and
    of a code of another group [j], all scaled by [15 n]: the first is
    nearer to the second than to the third when the digits allow. *)
Lemma nearer_on_circle (n i j da db dc A B C : Z) :
  0 <= i < n -> 0 <= j < n -> j <> i ->
  0 <= da <= 9 -> 0 <= db <= 9 -> 0 <= dc <= 9 ->
  Z.abs (da - db) + Z.abs (da - dc) < 12 ->
  Z.abs (A - (12 * i + da) * 2 ^ 64) <= 2 ^ 19 ->
  Z.abs (B - (12 * i + db) * 2 ^ 64) <= 2 ^ 19 ->
  Z.abs (C - (12 * j + dc) * 2 ^ 64) <= 2 ^ 19 ->
  Z.min (Z.abs (A - B)) (15 * n * 2 ^ 64 - Z.abs (A - B)) <
  Z.min (Z.abs (A - C)) (15 * n * 2 ^ 64 - Z.abs (A - C)).
Proof.
  intros Hi Hj Hne Hda Hdb Hdc Hnarrow Ha Hb Hc.
  change (2 ^ 19) with 524288 in *.
  change (2 ^ 64) with 18446744073709551616 in *.
  assert (Hab : Z.abs (A - B) <= Z.abs (da - db) * 18446744073709551616 + 1048576)
    by lia.
  assert (Hlow : (12 - Z.abs (da - dc)) * 18446744073709551616 - 1048576
                 <= Z.abs (A - C)) by lia.
  assert (Hhigh : Z.abs (A - C) <=
                  (15 * n - 12 + Z.abs (da - dc)) * 18446744073709551616 + 1048576)
    by lia.
  assert (Hgap : Z.abs (da - db) * 18446744073709551616 + 1048576 <
                 (12 - Z.abs (da - dc)) * 18446744073709551616 - 1048576) by lia.
  generalize dependent (Z.abs (A - B)). generalize dependent (Z.abs (A - C)).
  generalize dependent (Z.abs (da - db)). generalize dependent (Z.abs (da - dc)).
  intros. lia.
Qed.

(** Hues placed at the steps of two codes of group [i] and of a code of
    another group [j]: under [narrow_triple] the first two are nearer to
    each other than either is to the third. *)
Lemma placed_closer (n i j : nat) (da db dc : Z) (ha hb hc : float) :
  (1 <= n)%nat -> (i < n)%nat -> (j < n)%nat -> j <> i ->
  0 <= da <= 9 -> 0 <= db <= 9 -> 0 <= dc <= 9 ->
  narrow_triple da db dc = true ->
  placed n (12 * Z.of_nat i + da) ha = true ->
  placed n (12 * Z.of_nat i + db) hb = true ->
  placed n (12 * Z.of_nat j + dc) hc = true ->
  closer_ticks (ticks ha) (ticks hb) (ticks hc) = true.
Proof.
  intros Hn Hi Hj Hne Hda Hdb Hdc Hnarrow Ha Hb Hc.
  unfold placed in Ha, Hb, Hc. unfold closer_ticks.
  destruct (ticks ha) as [ta|]; [|done].
  destruct (ticks hb) as [tb|]; [|done].
  destruct (ticks hc) as [tc|]; [|done].
  apply Z.leb_le in Ha. apply Z.leb_le in Hb. apply Z.leb_le in Hc.
  apply Z.ltb_lt in Hnarrow.
  assert (HN : 0 < 15 * Z.of_nat n) by lia.
  assert (Hgrid : Z.pos grid = 2 ^ 64) by reflexivity.
  rewrite Hgrid in *.
  apply andb_true_intro.
  split; apply Z.ltb_lt; apply (Z.mul_lt_mono_pos_l (15 * Z.of_nat n)); try done;
    rewrite !scaled_circ_ticks, Hgrid by done.
  - apply (nearer_on_circle (Z.of_nat n) (Z.of_nat i) (Z.of_nat j) da db dc);
      try done; lia.
  - replace (Z.abs (15 * Z.of_nat n * ta - 15 * Z.of_nat n * tb))
      with (Z.abs (15 * Z.of_nat n * tb - 15 * Z.of_nat n * ta)) by lia.
    apply (nearer_on_circle (Z.of_nat n) (Z.of_nat i) (Z.of_nat j) db da dc);
      try done; lia.
Qed.

(** C3, at an input that breaks it.  With the codes 10, 19, 20 and 30 there
    are three major groups; 10 has hue 0 and 19 has hue 0.2, at distance 0.2
    from each other, while the base hue of group 2 is 0.8/3, only about 0.067
    from the hue of 19. *)
Lemma wide_group_breaks_grouping :
  let cs := ["10"; "19"; "20"; "30"] in
  exists m h10 h19 hg,
    generate_isco_grouped_colors cs = Ok m /\
    n_major_groups_of cs = 3%nat /\
    is_Some (m !! "10") /\ is_Some (m !! "19") /\
    (mgh <-! assign_base_hues (major_groups_of cs) ; hue_of mgh 3 "1" "10") = Ok h10 /\
    (mgh <-! assign_base_hues (major_groups_of cs) ; hue_of mgh 3 "1" "19") = Ok h19 /\
    (mgh <-! assign_base_hues (major_groups_of cs) ; subscript mgh "2"%char) = Ok hg /\
    ~ (circ_dist (to_Q h10) (to_Q h19) < circ_dist (to_Q h19) (to_Q hg))%Q.
Proof.
  exists (list_to_map [("10", "#e52222"); ("19", "#bee522");
                       ("20", "#85f23c"); ("30", "#22bee5")]).
  do 3 eexists. split; [vm_compute; reflexivity|].
  split; [vm_compute; reflexivity|].
  split; [vm_compute; by eexists|]. split; [vm_compute; by eexists|].
  split; [vm_compute; reflexivity|]. split; [vm_compute; reflexivity|].
  split; [vm_compute; reflexivity|].
  apply Qle_not_lt, Qle_bool_le. vm_compute. reflexivity.
Qed.

Lemma variation_digit_range (code : string) : 0 <= variation_digit code <= 9.
Proof.
  unfold variation_digit.
  destruct (second_digit code) as [d|] eqn:Hd; cbn [default]; [|lia].
  destruct code as [|c0 [|c1 r]]; try done. by apply (digit_value_range c1).
Qed.

(** [ha] and [hb] are nearer to each other, on the hue circle, than either
    is to [hc]. *)
Definition nearer (ha hb hc : float) : Prop :=
  (circ_dist (to_Q ha) (to_Q hb) < circ_dist (to_Q ha) (to_Q hc))%Q /\
  (circ_dist (to_Q ha) (to_Q hb) < circ_dist (to_Q hb) (to_Q hc))%Q.

(** C3, amended.  In a returned mapping, take two keys [a] and [b] with the
    same first character and second digits [da] and [db] (0 when absent or
    not a digit), and another major group, whatever the number of groups.
    When [2 * max da db - min da db < 12], the hues of [a] and [b] are
    nearer to each other than either is to the base hue of the other group.
    For a key [c] of the other group with second digit [dc], when
    [|da - db| + max |da - dc| |db - dc| < 12], they are nearer to each
    other than either is to the hue of [c]: so are the hues of 11 and 12
    against the hue of 21. *)
Theorem same_group_hues_closer (cs : list string) (m : gmap string string)
    (g g' : ascii) (resta restb : string) :
  let a := String g resta in
  let b := String g restb in
  let n := n_major_groups_of cs in
  generate_isco_grouped_colors cs = Ok m ->
  is_Some (m !! a) -> is_Some (m !! b) ->
  g' ∈ major_groups_of cs -> g' <> g ->
  exists mgh ha hb hg,
    assign_base_hues (major_groups_of cs) = Ok mgh /\
    hue_of mgh n g a = Ok ha /\ hue_of mgh n g b = Ok hb /\
    mgh !! g' = Some hg /\
    (narrow_pair (variation_digit a) (variation_digit b) = true ->
     nearer ha hb hg) /\
    (forall restc : string,
       let c := String g' restc in
       is_Some (m !! c) ->
       exists hc,
         hue_of mgh n g' c = Ok hc /\
         (narrow_triple (variation_digit a) (variation_digit b) (variation_digit c)
            = true ->
          nearer ha hb hc)).
Proof.
  intros a b n Hgen [va Ha] [vb Hb] Hg' Hne.
  destruct (returned_entry cs m a va Hgen Ha)
    as (ga & ra & i & gd & Heqa & _ & Hi & Hlt & Hn & _ & _).
  injection Heqa as <- <-.
  destruct (base_hues_exist cs) as [mgh Hmgh].
  pose proof Hmgh as (Hrun & Hin & _).
  apply list_elem_of_lookup in Hg' as [j Hj].
  pose proof (lookup_lt_Some _ _ _ Hj) as Hjlt.
  assert (Hji : j <> i) by (intros ->; congruence).
  assert (Hn' : (1 <= n <= 256)%nat) by (unfold n; lia).
  assert (Hn1 : (1 <= n)%nat) by lia.
  destruct (placed_checked n i (second_digit a) Hn Hlt (second_digit_option a))
    as [_ Hpa].
  destruct (placed_checked n i (second_digit b) Hn Hlt (second_digit_option b))
    as [_ Hpb].
  fold (variation_digit a) in Hpa. fold (variation_digit b) in Hpb.
  pose proof (variation_digit_range a) as Hda.
  pose proof (variation_digit_range b) as Hdb.
  exists mgh, (hue_at n i (second_digit a)), (hue_at n i (second_digit b)),
    (base_hue j n).
  split; [done|].
  split; [by apply hue_of_eq; [apply Hin|]|].
  split; [by apply hue_of_eq; [apply Hin|]|].
  split; [by apply Hin|].
  split.
  - intros Hnarrow. apply closer_on_grid.
    rewrite narrow_pair_triple in Hnarrow by lia.
    destruct (placed_checked n j None Hn Hjlt) as [Hpg _]; [by left|].
    rewrite <- (Z.add_0_r (12 * Z.of_nat j)) in Hpg.
    by apply (placed_closer n i j (variation_digit a) (variation_digit b) 0).
  - intros restc c [vc Hc].
    destruct (returned_entry cs m c vc Hgen Hc)
      as (gc & rc & j' & gd' & Heqc & _ & Hj' & _ & _ & _ & _).
    injection Heqc as <- <-.
    assert (j' = j) as ->.
    { eapply NoDup_lookup; [apply NoDup_sorted_major_groups|exact Hj'|exact Hj]. }
    exists (hue_at n j (second_digit c)).
    split; [by apply hue_of_eq; [apply Hin|]|].
    intros Hnarrow. apply closer_on_grid.
    destruct (placed_checked n j (second_digit c) Hn Hjlt (second_digit_option c))
      as [_ Hpc].
    fold (variation_digit c) in Hpc.
    apply (placed_closer n i j (variation_digit a) (variation_digit b)
             (variation_digit c)); try done.
    apply variation_digit_range.
Qed.

Lemma same_group_hues_closer_witness :
  exists m,
    generate_isco_grouped_colors ["11"; "12"; "21"] = Ok m /\
    is_Some (m !! "11") /\ is_Some (m !! "12") /\ is_Some (m !! "21") /\
    exists mgh ha hb hg hc,
      assign_base_hues (major_groups_of ["11"; "12"; "21"]) = Ok mgh /\
      hue_of mgh 2 "1" "11" = Ok ha /\ hue_of mgh 2 "1" "12" = Ok hb /\
      mgh !! "2"%char = Some hg /\ hue_of mgh 2 "2" "21" = Ok hc /\
      nearer ha hb hg /\ nearer ha hb hc.
Proof.
  exists (list_to_map [("11", "#e54922"); ("12", "#e57022"); ("21", "#3cf2a9")]).
  assert (Hgen : generate_isco_grouped_colors ["11"; "12"; "21"] =
                 Ok (list_to_map [("11", "#e54922"); ("12", "#e57022");
                                  ("21", "#3cf2a9")]))
    by (vm_compute; reflexivity).
  split; [exact Hgen|].
  split; [vm_compute; by eexists|]. split; [vm_compute; by eexists|].
  split; [vm_compute; by eexists|].
  destruct (same_group_hues_closer _ _ "1" "2" "1" "2" Hgen)
    as (mgh & ha & hb & hg & Hrun & Ha & Hb & Hg & Hbase & Hcode).
  - vm_compute. by eexists.
  - vm_compute. by eexists.
  - apply list_elem_of_In. vm_compute. right. by left.
  - discriminate.
  - destruct (Hcode "1") as (hc & Hc & Hnear); [vm_compute; by eexists|].
    exists mgh, ha, hb, hg, hc.
    split; [exact Hrun|]. split; [exact Ha|]. split; [exact Hb|].
    split; [exact Hg|]. split; [exact Hc|].
    split; [apply Hbase; reflexivity|apply Hnear; reflexivity].
Defined.

(** * The flagging store: properties *)

Lemma same_record_last_clicked (entry last_clicked_data : gmap string value)
    (now id : string) :
  same_record entry (<[ "id" := VStr id ]> (<[ "timestamp" := VStr now ]> last_clicked_data)) =
  same_record entry last_clicked_data.
Proof.
  unfold same_record, dict_get. by rewrite !lookup_insert_ne by done.
Qed.

(** The record under the button is already listed: some entry has an equal
    translated title and an equal category code. *)
Definition already_listed (last_clicked_data : gmap string value)
    (current_data : list (gmap string value)) : Prop :=
  exists entry, entry ∈ current_data /\ same_record entry last_clicked_data = true.

Lemma existsb_same_record last_clicked_data now id current_data :
  existsb (fun entry =>
             same_record entry
               (<[ "id" := VStr id ]> (<[ "timestamp" := VStr now ]> last_clicked_data)))
          current_data = true <->
  already_listed last_clicked_data current_data.
Proof.
  rewrite existsb_exists. unfold already_listed.
  split; intros (entry & Hin & Hsame); exists entry.
  - rewrite same_record_last_clicked in Hsame. by rewrite list_elem_of_In.
  - rewrite same_record_last_clicked. by rewrite <- list_elem_of_In.
Qed.

Lemma duplicate_flag_rejected_core last_clicked_data now n_clicks current_data :
  n_clicks <> 0 -> last_clicked_data <> ∅ ->
  ~ already_listed last_clicked_data current_data ->
  exists entry,
    add_to_misclassified last_clicked_data now n_clicks current_data =
      ((current_data ++ [entry])%list, Notice "Added to misclassified jobs list!" "#28a745") /\
    entry = <[ "id" := VStr (py_str (Z.of_nat (length current_data) + 1)) ]>
              (<[ "timestamp" := VStr now ]> last_clicked_data).
Proof.
  intros Hclicks Hsel Hnew. unfold add_to_misclassified.
  assert (Hguard : (n_clicks =? 0) || (size last_clicked_data =? 0)%nat = false).
  { apply orb_false_intro; [by apply Z.eqb_neq|].
    apply Nat.eqb_neq. by rewrite map_size_empty_iff. }
  rewrite Hguard. cbv zeta.
  destruct (existsb _ current_data) eqn:Hex.
  - apply existsb_same_record in Hex. contradiction.
  - eexists. split; reflexivity.
Qed.

(** C8.  When the button has been clicked with a record selected: if a record
    with the same translated title and category code is in the list, the
    list comes back unchanged with the notice that the job is already in
    the list; otherwise the list comes back with exactly one entry appended,
    the selected record with its timestamp and id.  Nothing is raised. *)
Theorem duplicate_flag_rejected (last_clicked_data : gmap string value) (now : string)
    (n_clicks : Z) (current_data : list (gmap string value)) :
  n_clicks <> 0 -> last_clicked_data <> ∅ ->
  (already_listed last_clicked_data current_data ->
   add_to_misclassified last_clicked_data now n_clicks current_data =
     (current_data, Notice "This job is already in the misclassified list!" "#dc3545")) /\
  (~ already_listed last_clicked_data current_data ->
   exists entry,
     add_to_misclassified last_clicked_data now n_clicks current_data =
       ((current_data ++ [entry])%list, Notice "Added to misclassified jobs list!" "#28a745") /\
     length (current_data ++ [entry])%list = S (length current_data) /\
     entry = <[ "id" := VStr (py_str (Z.of_nat (length current_data) + 1)) ]>
               (<[ "timestamp" := VStr now ]> last_clicked_data)).
Proof.
  intros Hclicks Hsel. unfold add_to_misclassified.
  assert (Hguard : (n_clicks =? 0) || (size last_clicked_data =? 0)%nat = false).
  { apply orb_false_intro; [by apply Z.eqb_neq|].
    apply Nat.eqb_neq. by rewrite map_size_empty_iff. }
  rewrite Hguard. cbv zeta. split.
  - intros Hdup. by rewrite (proj2 (existsb_same_record _ _ _ _) Hdup).
  - intros Hnew.
    destruct (existsb _ current_data) eqn:Hex.
    + apply existsb_same_record in Hex. contradiction.
    + eexists. split; [reflexivity|]. split; [|reflexivity].
      rewrite length_app. simpl. lia.
Qed.

Lemma duplicate_flag_rejected_witness :
  let job : gmap string value :=
    {[ "title_en" := VStr "Welder"; "isco2d" := VStr "72" ]} in
  let listed : gmap string value :=
    <[ "id" := VStr "1" ]> (<[ "timestamp" := VStr "2025-05-05 10:15:40" ]> job) in
  add_to_misclassified job "2025-05-05 10:16:02" 2 [listed] =
    ([listed], Notice "This job is already in the misclassified list!" "#dc3545").
Proof.
  intros job listed.
  apply (duplicate_flag_rejected job "2025-05-05 10:16:02" 2 [listed]).
  - lia.
  - intros Hempty. assert (H : job !! "isco2d" = None) by (rewrite Hempty; done).
    vm_compute in H. discriminate H.
  - exists listed. split; [by left|]. vm_compute. reflexivity.
Defined.

(** Every entry carries the decimal string of its position, counted from 1. *)
Definition numbered (data : list (gmap string value)) : Prop :=
  forall (i : nat) (entry : gmap string value),
    data !! i = Some entry ->
    entry !! "id" = Some (VStr (py_str (Z.of_nat i + 1))).

Lemma add_outcomes last_clicked_data now n_clicks current_data :
  handle current_data (Add last_clicked_data now n_clicks) = current_data \/
  handle current_data (Add last_clicked_data now n_clicks) =
    (current_data ++
       [<[ "id" := VStr (py_str (Z.of_nat (length current_data) + 1)) ]>
          (<[ "timestamp" := VStr now ]> last_clicked_data)])%list.
Proof.
  unfold handle, add_to_misclassified.
  destruct ((n_clicks =? 0) || (size last_clicked_data =? 0)%nat); [by left|].
  cbv zeta. destruct (existsb _ current_data); [by left|by right].
Qed.

Lemma numbered_handle (data : list (gmap string value)) (ev : event) :
  numbered data -> numbered (handle data ev).
Proof.
  intros Hnum. destruct ev as [last_clicked_data now n_clicks|n_clicks].
  - destruct (add_outcomes last_clicked_data now n_clicks data) as [->| ->]; [done|].
    intros i entry Hi. apply lookup_app_Some in Hi as [Hi|[Hlen Hi]].
    + by apply Hnum.
    + apply list_lookup_singleton_Some in Hi as [Hzero <-].
      assert (i = length data) as -> by lia. apply lookup_insert_eq.
  - intros i entry Hi. cbn [handle clear_misclassified fst] in Hi.
    by rewrite lookup_nil in Hi.
Qed.

(** C10.  In every state of the store reachable from the empty list through
    the add and clear callbacks, the entry at index [i] has the id [str(i+1)].
    An attempt to add a record already listed leaves the store as it is, so
    the next accepted record gets the id after the last one; an accepted
    record gets the id [str(len + 1)]; and after a clear the next accepted
    record gets the id ["1"]. *)
Theorem ids_are_consecutive (data : list (gmap string value)) :
  reachable data ->
  numbered data /\
  (forall last_clicked_data now n_clicks,
     already_listed last_clicked_data data ->
     handle data (Add last_clicked_data now n_clicks) = data) /\
  (forall last_clicked_data now n_clicks,
     n_clicks <> 0 -> last_clicked_data <> ∅ ->
     ~ already_listed last_clicked_data data ->
     exists entry,
       handle data (Add last_clicked_data now n_clicks) = (data ++ [entry])%list /\
       entry !! "id" = Some (VStr (py_str (Z.of_nat (length data) + 1)))) /\
  (forall n_cleared last_clicked_data now n_clicks,
     n_clicks <> 0 -> last_clicked_data <> ∅ ->
     exists entry,
       handle (handle data (Clear n_cleared)) (Add last_clicked_data now n_clicks)
         = [entry] /\
       entry !! "id" = Some (VStr "1")).
Proof.
  intros Hreach. split; [|split; [|split]].
  - induction Hreach as [|data ev _ IH].
    + intros i entry Hi. by rewrite lookup_nil in Hi.
    + by apply numbered_handle.
  - intros last_clicked_data now n_clicks Hdup. unfold handle, add_to_misclassified.
    destruct ((n_clicks =? 0) || (size last_clicked_data =? 0)%nat); [done|].
    cbv zeta. by rewrite (proj2 (existsb_same_record _ _ _ _) Hdup).
  - intros last_clicked_data now n_clicks Hclicks Hsel Hnew.
    destruct (duplicate_flag_rejected_core last_clicked_data now n_clicks data
                Hclicks Hsel Hnew) as (entry & Hadd & -> ).
    exists (<[ "id" := VStr (py_str (Z.of_nat (length data) + 1)) ]>
              (<[ "timestamp" := VStr now ]> last_clicked_data)).
    split; [unfold handle; by rewrite Hadd|]. apply lookup_insert_eq.
  - intros n_cleared last_clicked_data now n_clicks Hclicks Hsel.
    destruct (duplicate_flag_rejected_core last_clicked_data now n_clicks []
                Hclicks Hsel) as (entry & Hadd & ->).
    { intros (entry & Hin & _). by apply elem_of_nil in Hin. }
    eexists. split; [unfold handle at 1; cbn [clear_misclassified fst handle];
                     by rewrite Hadd|].
    apply lookup_insert_eq.
Qed.

Lemma ids_are_consecutive_witness :
  let job : gmap string value :=
    {[ "title_en" := VStr "Welder"; "isco2d" := VStr "72" ]} in
  numbered (handle [] (Add job "2025-05-05 10:15:40" 1)).
Proof.
  intros job.
  apply (ids_are_consecutive (handle [] (Add job "2025-05-05 10:15:40" 1))).
  apply reachable_handle, reachable_initial.
Defined.

(** * The click handler: properties *)

Section click_properties.

Variable series_round_3 : float -> float.
Variable builtin_round_3 : float -> float.
Variable format_3f : float -> string.

(** C9.  When no row of the dataframe has the clicked point's category code
    and translated title together with coordinates that agree after
    rounding to three decimals, the handler still returns the details panel,
    with ["Original title not available"] as the original title, and
    records the same placeholder in [last_clicked_data]. *)
Theorem lookup_miss_shows_placeholder (df : list row) (color_map : gmap string string)
    (pt : point) (last_clicked_data : gmap string value) :
  (forall r, r ∈ df ->
     row_matches series_round_3 builtin_round_3 (pt_isco2d pt) (pt_title_en pt) (pt_x pt) (pt_y pt) r = false) ->
  exists d stored,
    display_click series_round_3 builtin_round_3 format_3f df color_map (Some pt)
      last_clicked_data = (stored, Panel d) /\
    shown_original_title d = "Original title not available" /\
    shown_english_title d = pt_title_en pt /\
    shown_isco2d d = pt_isco2d pt /\
    stored !! "title" = Some (VStr "Original title not available").
Proof.
  intros Hmiss. unfold display_click. cbv zeta.
  assert (Hnone : filter (row_matches series_round_3 builtin_round_3 (pt_isco2d pt) (pt_title_en pt) (pt_x pt) (pt_y pt))
                         df = []).
  { induction df as [|r df IH]; [done|].
    rewrite filter_cons_False.
    - apply IH. intros r' Hr'. apply Hmiss. by right.
    - rewrite (Hmiss r); [exact id|]. by left. }
  rewrite Hnone. do 2 eexists. split; [reflexivity|].
  cbn [shown_original_title shown_english_title shown_isco2d].
  split; [done|]. split; [done|]. split; [done|].
  rewrite lookup_insert_ne by done. apply lookup_insert_eq.
Qed.

End click_properties.

(** A rounding to three decimals to run the handler with: the nearest
    multiple of 0.001 to the exact value, ties to even, then the nearest
    double, which is what [round(x, 3)] returns for a double of moderate
    size. *)
Definition round_3 (x : float) : float :=
  let q := (to_Q x * 1000)%Q in
  let lo := (Qnum q / Z.pos (Qden q))%Z in
  let twice_rem := (2 * (Qnum q mod Z.pos (Qden q)))%Z in
  let k := if (twice_rem <? Z.pos (Qden q))%Z then lo
           else if (Z.pos (Qden q) <? twice_rem)%Z then (lo + 1)%Z
           else if Z.even lo then lo else (lo + 1)%Z in
  fdiv (of_Z k) (of_Z 1000).

Lemma lookup_miss_shows_placeholder_witness :
  let df := [ {| row_isco2d := "72"; row_title := "Svarshchik"; row_title_en := "Welder";
                 row_x := literal 15 10; row_y := literal 25 10 |} ] in
  let pt := {| pt_title_en := "Welder"; pt_isco2d := "72";
               pt_x := literal 17 10; pt_y := literal 25 10 |} in
  exists d stored,
    display_click round_3 round_3 (fun _ => "") df ∅ (Some pt) ∅ = (stored, Panel d) /\
    shown_original_title d = "Original title not available" /\
    shown_english_title d = "Welder" /\
    shown_isco2d d = "72" /\
    stored !! "title" = Some (VStr "Original title not available").
Proof.
  intros df pt.
  apply (lookup_miss_shows_placeholder round_3 round_3 (fun _ => "") df ∅ pt ∅).
  intros r Hr. apply list_elem_of_In in Hr. destruct Hr as [<-|[]].
  vm_compute. reflexivity.
Defined.

(** * Further properties of the colour assigner *)

Lemma py_str_nonempty (z : Z) : py_str z <> EmptyString.
Proof.
  unfold py_str, DecimalString.NilZero.string_of_int.
  destruct (Z.to_int z) as [d|d]; [|done].
  unfold DecimalString.NilZero.string_of_uint. by destruct d.
Qed.

Lemma dom_of_returned (cs : list string) (m : gmap string string) (k : string) :
  generate_isco_grouped_colors cs = Ok m ->
  is_Some (m !! k) <-> k ∈ sorted_isco_of cs /\ k <> EmptyString.
Proof.
  intros Hgen.
  destruct (returns_on_digit_groups cs) as (m' & Hgen' & Hkeys).
  { intros g rest Hin. apply (returned_groups_are_digits cs m Hgen).
    apply elem_of_sorted_major_groups. by exists (String g rest). }
  assert (m' = m) as -> by congruence. apply Hkeys.
Qed.

(** X1.  The assigner returns a mapping exactly when every major group, the first
    character of a code in the sort order, is a decimal digit; on any other
    input it raises. *)
Theorem returns_iff_digit_groups (cs : list string) :
  (exists m, generate_isco_grouped_colors cs = Ok m) <->
  (forall g, g ∈ major_groups_of cs -> is_Some (digit_value g)).
Proof.
  split.
  - intros [m Hgen]. by apply (returned_groups_are_digits cs m).
  - intros Hdig. destruct (returns_on_digit_groups cs) as (m & Hgen & _); [|by exists m].
    intros g rest Hin. apply Hdig, elem_of_sorted_major_groups.
    by exists (String g rest).
Qed.

(** X2.  The keys of a returned mapping: when every code parses as an integer,
    the decimal renderings [str(int(code))] of the codes; otherwise the
    codes themselves, the empty string left out. *)
Theorem keys_of_returned_mapping (cs : list string) (m : gmap string string) :
  generate_isco_grouped_colors cs = Ok m ->
  forall k : string,
    k ∈ dom m <->
    if forallb parses cs
    then exists c, c ∈ cs /\ k = py_str (int_value c)
    else k ∈ cs /\ k <> EmptyString.
Proof.
  intros Hgen k.
  destruct (returns_on_digit_groups cs) as (m' & Hgen' & Hkeys).
  { intros g rest Hin. apply (returned_groups_are_digits cs m Hgen).
    apply elem_of_sorted_major_groups. by exists (String g rest). }
  assert (m' = m) as -> by congruence.
  rewrite elem_of_dom, Hkeys, elem_of_sorted_isco_of.
  destruct (forallb parses cs); [|done]. split; [by intros [? _]|].
  intros (c & Hc & ->). split; [by exists c|]. apply py_str_nonempty.
Qed.

Lemma keys_of_returned_mapping_witness :
  "7" ∈ dom (list_to_map [("7", "#22e570"); ("30", "#e52222")] : gmap string string) <->
  exists c, c ∈ [" 7"; "0_30"] /\ "7" = py_str (int_value c).
Proof.
  assert (Hgen : generate_isco_grouped_colors [" 7"; "0_30"] =
                 Ok (list_to_map [("7", "#22e570"); ("30", "#e52222")]))
    by (vm_compute; reflexivity).
  exact (keys_of_returned_mapping _ _ Hgen "7").
Defined.

(** ** Which codes share a colour *)

(** A missing or unreadable second character varies the hue like the digit 0. *)
Lemma no_digit_is_zero (n : nat) :
  (1 <= n <= 10)%nat -> offset n None = offset n (Some 0).
Proof.
  intros Hn.
  assert (H : forallb (fun n => match offset n (Some 0) with
                                | S754_zero false => true
                                | _ => false
                                end) (seq 1 10) = true)
    by (vm_compute; reflexivity).
  apply (forallb_seq _ 1 10 n) in H; [|lia]. cbv beta in H.
  unfold offset at 1. by destruct (offset n (Some 0)) as [[]| | |].
Qed.

Lemma hue_at_variation_digit (n i : nat) (code : string) :
  (1 <= n <= 10)%nat ->
  hue_at n i (second_digit code) = hue_at n i (Some (variation_digit code)).
Proof.
  intros Hn. unfold variation_digit, hue_at.
  destruct (second_digit code) as [d|]; [done|]. cbn [default].
  by rewrite (no_digit_is_zero n Hn).
Qed.

(** The colour text for group index [i] of [n], second digit [d] and parity
    [p]; empty if the conversion raised. *)
Definition swatch_text (n i : nat) (d : Z) (p : bool) : string :=
  match shade (hue_at n i (Some d)) p with
  | Ok v => v
  | Raise _ => EmptyString
  end.

Definition swatch_pair (n : nat) (key : nat * nat) : nat * nat * (string * string) :=
  (key, (swatch_text n (fst key) (Z.of_nat (snd key)) true,
         swatch_text n (fst key) (Z.of_nat (snd key)) false)).

Definition differ (a b : nat * nat * (string * string)) : bool :=
  let '(ka, (at_, af)) := a in
  let '(kb, (bt, bf)) := b in
  ((fst ka =? fst kb)%nat && (snd ka =? snd kb)%nat) ||
  (negb (String.eqb at_ bt) && negb (String.eqb at_ bf) &&
   negb (String.eqb af bt) && negb (String.eqb af bf)).

(** The channels a colour text stands for. *)
Definition hex_digit_value (c : ascii) : option Z :=
  let k := code_point c in
  if ((48 <=? k) && (k <=? 57))%N then Some (Z.of_N k - 48)
  else if ((97 <=? k) && (k <=? 102))%N then Some (Z.of_N k - 87)
  else None.

Definition channel_of_hex (a b : ascii) : option Z :=
  match hex_digit_value a, hex_digit_value b with
  | Some x, Some y => Some (16 * x + y)
  | _, _ => None
  end.

Definition channels_of_hex (s : string) : option (Z * Z * Z) :=
  match s with
  | String "#" (String a (String b (String c (String d (String e (String f EmptyString)))))) =>
      match channel_of_hex a b, channel_of_hex c d, channel_of_hex e f with
      | Some r, Some g, Some bl => Some (r, g, bl)
      | _, _, _ => None
      end
  | _ => None
  end.

Definition brightest (rgb : Z * Z * Z) : Z :=
  let '(r, g, b) := rgb in Z.max r (Z.max g b).

Definition darkest (rgb : Z * Z * Z) : Z :=
  let '(r, g, b) := rgb in Z.min r (Z.min g b).

(** The strongest channel is [int(value * 255)] and the weakest is
    [int(value * (1 - saturation) * 255)]. *)
Definition tone_ok (is_odd_group : bool) (v : string) : bool :=
  match channels_of_hex v with
  | Some rgb =>
      (brightest rgb =? (if is_odd_group then 229 else 242)) &&
      (darkest rgb =? (if is_odd_group then 34 else 60))
  | None => false
  end.

Definition tones_ok (a : nat * nat * (string * string)) : bool :=
  tone_ok true (fst (snd a)) && tone_ok false (snd (snd a)).

Definition palette_ok (n : nat) : bool :=
  let cells := map (swatch_pair n) (list_prod (seq 0 n) (seq 0 10)) in
  forallb tones_ok cells && forallb (fun a => forallb (differ a) cells) cells.

Lemma all_palettes_checked : forallb palette_ok (seq 1 10) = true.
Proof. vm_cast_no_check (eq_refl true). Qed.

Lemma swatch_pair_listed (n i : nat) (d : Z) :
  (i < n)%nat -> 0 <= d <= 9 ->
  In (swatch_pair n (i, Z.to_nat d))
     (map (swatch_pair n) (list_prod (seq 0 n) (seq 0 10))).
Proof. intros Hi Hd. apply in_map, in_prod; apply in_seq; lia. Qed.

Lemma swatch_tone (n i : nat) (d : Z) (p : bool) :
  (1 <= n <= 10)%nat -> (i < n)%nat -> 0 <= d <= 9 ->
  tone_ok p (swatch_text n i d p) = true.
Proof.
  intros Hn Hi Hd.
  assert (Hall : palette_ok n = true).
  { apply (forallb_seq palette_ok 1 10 n all_palettes_checked). lia. }
  unfold palette_ok in Hall. cbv zeta in Hall.
  apply andb_prop in Hall as [Hall _]. rewrite forallb_forall in Hall.
  specialize (Hall _ (swatch_pair_listed n i d Hi Hd)).
  unfold tones_ok, swatch_pair in Hall. cbn [fst snd] in Hall.
  rewrite !Z2Nat.id in Hall by lia.
  apply andb_prop in Hall as [Ht Hf]. by destruct p.
Qed.

Lemma swatches_differ (n i j : nat) (da db : Z) (pa pb : bool) :
  (1 <= n <= 10)%nat -> (i < n)%nat -> (j < n)%nat ->
  0 <= da <= 9 -> 0 <= db <= 9 ->
  i <> j \/ da <> db ->
  swatch_text n i da pa <> swatch_text n j db pb.
Proof.
  intros Hn Hi Hj Hda Hdb Hne.
  assert (Hall : palette_ok n = true).
  { apply (forallb_seq palette_ok 1 10 n all_palettes_checked). lia. }
  unfold palette_ok in Hall. cbv zeta in Hall.
  apply andb_prop in Hall as [_ Hall]. rewrite forallb_forall in Hall.
  pose proof (swatch_pair_listed n) as Hin.
  specialize (Hall _ (Hin i da Hi Hda)). rewrite forallb_forall in Hall.
  specialize (Hall _ (Hin j db Hj Hdb)).
  unfold differ, swatch_pair in Hall. cbn [fst snd] in Hall.
  rewrite !Z2Nat.id in Hall by lia.
  apply orb_prop in Hall as [Hsame|Hdiff].
  - apply andb_prop in Hsame as [H1 H2].
    apply Nat.eqb_eq in H1. apply Nat.eqb_eq in H2. lia.
  - repeat (apply andb_prop in Hdiff as [Hdiff ?]).
    repeat match goal with
           | H : negb (String.eqb _ _) = true |- _ =>
               apply negb_true_iff, String.eqb_neq in H
           end.
    by destruct pa, pb.
Qed.

(** X3.  Two keys of a returned mapping have the same colour exactly when they
    have the same first character and the same variation digit, the second
    character read as a digit and 0 when it is absent or not a digit.  So
    ["101"] and ["102"] share the colour of ["10"], while codes that differ in
    one of their first two digits never share a colour. *)
Theorem same_colour_iff (cs : list string) (m : gmap string string)
    (k1 k2 v1 v2 : string) :
  generate_isco_grouped_colors cs = Ok m ->
  m !! k1 = Some v1 -> m !! k2 = Some v2 ->
  (v1 = v2 <->
   first_char k1 = first_char k2 /\ variation_digit k1 = variation_digit k2).
Proof.
  intros Hgen H1 H2.
  destruct (returned_entry cs m k1 v1 Hgen H1)
    as (g1 & r1 & i1 & d1 & Hk1 & _ & Hi1 & Hlt1 & Hn & Hd1 & Hs1).
  destruct (returned_entry cs m k2 v2 Hgen H2)
    as (g2 & r2 & i2 & d2 & Hk2 & _ & Hi2 & Hlt2 & _ & Hd2 & Hs2).
  rewrite (hue_at_variation_digit _ _ k1 Hn) in Hs1.
  rewrite (hue_at_variation_digit _ _ k2 Hn) in Hs2.
  assert (Hfirst : first_char k1 = first_char k2 <-> i1 = i2).
  { subst k1 k2. cbn [first_char]. split.
    - intros [= ->]. eapply NoDup_lookup;
        [apply NoDup_sorted_major_groups|exact Hi1|exact Hi2].
    - intros ->. congruence. }
  assert (Hrange : forall k, 0 <= variation_digit k <= 9).
  { intros k. unfold variation_digit.
    destruct (second_digit k) as [d|] eqn:Hd; cbn [default]; [|lia].
    destruct k as [|c0 [|c1 r]]; try done. by apply (digit_value_range c1). }
  split.
  - intros <-.
    destruct (decide (i1 = i2 /\ variation_digit k1 = variation_digit k2))
      as [[Hi Hv]|Hno]; [by rewrite Hfirst|].
    exfalso.
    apply (swatches_differ (n_major_groups_of cs) i1 i2
             (variation_digit k1) (variation_digit k2)
             (d1 mod 2 =? 1) (d2 mod 2 =? 1)); try done.
    + destruct (decide (i1 = i2)); [right|by left]. intros Hv. by apply Hno.
    + unfold swatch_text. by rewrite Hs1, Hs2.
  - intros [Hf Hv]. apply Hfirst in Hf. subst i2.
    assert (g1 = g2) as -> by congruence.
    assert (d1 = d2) as -> by congruence.
    rewrite Hv in Hs1. congruence.
Qed.

Lemma same_colour_iff_witness :
  "#e52222" = "#e52222" <->
  first_char "101" = first_char "102" /\ variation_digit "101" = variation_digit "102".
Proof.
  assert (Hgen : generate_isco_grouped_colors ["101"; "102"; "21"] =
                 Ok (list_to_map [("101", "#e52222"); ("102", "#e52222");
                                  ("21", "#3cf2a9")]))
    by (vm_compute; reflexivity).
  apply (same_colour_iff _ _ "101" "102" _ _ Hgen); vm_compute; reflexivity.
Defined.

(** X4.  Lines 80-84: the colours of odd-numbered groups are darker and more
    saturated.  In every colour of a returned mapping the strongest channel
    is 229 for an odd group digit and 242 for an even one, and the weakest
    channel is 34 and 60: the brightness and the saturation of a colour
    depend on the parity of the group alone. *)
Theorem tone_follows_parity (cs : list string) (m : gmap string string)
    (k v : string) :
  generate_isco_grouped_colors cs = Ok m ->
  m !! k = Some v ->
  exists g rest gd rgb,
    k = String g rest /\ digit_value g = Some gd /\
    channels_of_hex v = Some rgb /\
    brightest rgb = (if Z.odd gd then 229 else 242) /\
    darkest rgb = (if Z.odd gd then 34 else 60).
Proof.
  intros Hgen Hk.
  destruct (returned_entry cs m k v Hgen Hk)
    as (g & rest & i & gd & -> & _ & _ & Hlt & Hn & Hgd & Hshade).
  rewrite (hue_at_variation_digit _ _ (String g rest) Hn) in Hshade.
  assert (Hrange : 0 <= variation_digit (String g rest) <= 9).
  { unfold variation_digit.
    destruct (second_digit (String g rest)) as [d|] eqn:Hd; cbn [default]; [|lia].
    destruct rest as [|c1 r]; [done|]. by apply (digit_value_range c1). }
  pose proof (swatch_tone (n_major_groups_of cs) i _ (gd mod 2 =? 1) Hn Hlt Hrange)
    as Htone.
  unfold swatch_text in Htone. rewrite Hshade in Htone. unfold tone_ok in Htone.
  destruct (channels_of_hex v) as [rgb|]; [|done].
  apply andb_prop in Htone as [Hmax Hmin].
  apply Z.eqb_eq in Hmax. apply Z.eqb_eq in Hmin.
  assert (Hodd : (gd mod 2 =? 1) = Z.odd gd).
  { rewrite Zodd_mod. done. }
  rewrite Hodd in Hmax, Hmin.
  by exists g, rest, gd, rgb.
Qed.

Lemma tone_follows_parity_witness :
  exists g rest gd rgb,
    "21" = String g rest /\ digit_value g = Some gd /\
    channels_of_hex "#3cf2a9" = Some rgb /\
    brightest rgb = (if Z.odd gd then 229 else 242) /\
    darkest rgb = (if Z.odd gd then 34 else 60).
Proof.
  assert (Hgen : generate_isco_grouped_colors ["101"; "102"; "21"] =
                 Ok (list_to_map [("101", "#e52222"); ("102", "#e52222");
                                  ("21", "#3cf2a9")]))
    by (vm_compute; reflexivity).
  apply (tone_follows_parity _ _ "21" "#3cf2a9" Hgen). vm_compute. reflexivity.
Defined.

(** ** The hues that are used *)

Definition hue_plain_ok (n i : nat) (od : option Z) : bool :=
  let h := fadd (base_hue i n) (offset n od) in
  match hue_at n i od, h with
  | S754_zero s, S754_zero t => Bool.eqb s t
  | S754_finite s m e, S754_finite t m' e' =>
      Bool.eqb s t && Pos.eqb m m' && Z.eqb e e'
  | _, _ => false
  end &&
  Qle_bool 0 (to_Q h) && Qltb (to_Q h) (4 # 5).

Definition hue_plain_col_ok (n i : nat) : bool := forallb (hue_plain_ok n i) digit_options.
Definition hue_plain_row_ok (n : nat) : bool := forallb (hue_plain_col_ok n) (seq 0 n).

Lemma all_hues_plain : forallb hue_plain_row_ok (seq 1 10) = true.
Proof. vm_cast_no_check (eq_refl true). Qed.

Lemma hue_plain_checked (n i : nat) (od : option Z) :
  (1 <= n <= 10)%nat -> (i < n)%nat -> In od digit_options ->
  hue_at n i od = fadd (base_hue i n) (offset n od) /\
  (0 <= to_Q (hue_at n i od))%Q /\ (to_Q (hue_at n i od) < 4 # 5)%Q.
Proof.
  intros Hn Hi Hod.
  assert (Hrow : hue_plain_row_ok n = true).
  { apply (forallb_seq hue_plain_row_ok 1 10 n all_hues_plain). lia. }
  assert (Hcol : hue_plain_col_ok n i = true).
  { apply (forallb_seq (hue_plain_col_ok n) 0 n i Hrow). lia. }
  unfold hue_plain_col_ok in Hcol. rewrite forallb_forall in Hcol.
  apply Hcol in Hod. unfold hue_plain_ok in Hod. cbv zeta in Hod.
  apply andb_prop in Hod as [Hod Hlt]. apply andb_prop in Hod as [Hsame Hle].
  assert (Heq : hue_at n i od = fadd (base_hue i n) (offset n od)).
  { destruct (hue_at n i od) as [s| | |s m e],
      (fadd (base_hue i n) (offset n od)) as [t| | |t m' e']; try done.
    - apply Bool.eqb_prop in Hsame. by subst.
    - apply andb_prop in Hsame as [Hsame He]. apply andb_prop in Hsame as [Hs Hm].
      apply Bool.eqb_prop in Hs. apply Pos.eqb_eq in Hm. apply Z.eqb_eq in He.
      by subst. }
  split; [exact Heq|]. rewrite Heq.
  split; [by apply Qle_bool_le|by apply Qltb_lt].
Qed.

(** X5.  Every hue behind a returned mapping is the plain sum of the base hue and
    the minor variation, at least 0 and below 0.8: the reduction modulo 1.0
    on line 78 never changes it, and no code gets a hue in the last fifth
    of the hue circle. *)
Theorem hues_stay_below_four_fifths (cs : list string) (m : gmap string string)
    (k : string) :
  generate_isco_grouped_colors cs = Ok m ->
  is_Some (m !! k) ->
  exists mgh g rest base mv,
    assign_base_hues (major_groups_of cs) = Ok mgh /\
    k = String g rest /\ mgh !! g = Some base /\
    minor_variation_of (n_major_groups_of cs) k = Ok mv /\
    hue_of mgh (n_major_groups_of cs) g k = Ok (fadd base mv) /\
    (0 <= to_Q (fadd base mv))%Q /\ (to_Q (fadd base mv) < 4 # 5)%Q.
Proof.
  intros Hgen [v Hk].
  destruct (returned_entry cs m k v Hgen Hk)
    as (g & rest & i & gd & -> & _ & Hi & Hlt & Hn & _ & _).
  destruct (base_hues_exist cs) as [mgh Hmgh].
  pose proof Hmgh as (Hrun & Hin & _).
  set (n := n_major_groups_of cs) in *.
  assert (Hn' : (1 <= n <= 256)%nat) by lia.
  destruct (hue_plain_checked n i (second_digit (String g rest)) Hn Hlt
              (second_digit_option _)) as (Heq & Hle & Hlt').
  exists mgh, g, rest, (base_hue i n), (offset n (second_digit (String g rest))).
  split; [done|]. split; [done|]. split; [by apply Hin|].
  split; [by apply minor_variation_of_eq|].
  split; [rewrite <- Heq; by apply hue_of_eq; [apply Hin|]|].
  rewrite <- Heq. by split.
Qed.

Lemma hues_stay_below_four_fifths_witness :
  exists mgh g rest base mv,
    assign_base_hues (major_groups_of ["89"; "99"]) = Ok mgh /\
    "99" = String g rest /\ mgh !! g = Some base /\
    minor_variation_of (n_major_groups_of ["89"; "99"]) "99" = Ok mv /\
    hue_of mgh (n_major_groups_of ["89"; "99"]) g "99" = Ok (fadd base mv) /\
    (0 <= to_Q (fadd base mv))%Q /\ (to_Q (fadd base mv) < 4 # 5)%Q.
Proof.
  assert (Hgen : generate_isco_grouped_colors ["89"; "99"] =
                 Ok (list_to_map [("89", "#60f23c"); ("99", "#4922e5")]))
    by (vm_compute; reflexivity).
  apply (hues_stay_below_four_fifths _ _ "99" Hgen).
  vm_compute. by eexists.
Defined.

(** ** The input as a set *)

Lemma major_groups_of_same_codes (cs1 cs2 : list string) :
  (forall k, k ∈ sorted_isco_of cs1 <-> k ∈ sorted_isco_of cs2) ->
  major_groups_of cs1 = major_groups_of cs2.
Proof.
  intros Hcodes. unfold major_groups_of, sorted_major_groups. f_equal. f_equal.
  apply set_eq. intros g. rewrite !elem_of_collect_major_groups.
  split; intros (code & Hcode & Hg); exists code; (split; [by apply Hcodes|done]).
Qed.

(** The mapping depends on the set of codes in the sort order only. *)
Lemma same_codes_same_mapping (cs1 cs2 : list string) (m : gmap string string) :
  (forall k, k ∈ sorted_isco_of cs1 <-> k ∈ sorted_isco_of cs2) ->
  generate_isco_grouped_colors cs1 = Ok m ->
  generate_isco_grouped_colors cs2 = Ok m.
Proof.
  intros Hcodes Hgen1.
  pose proof (major_groups_of_same_codes cs1 cs2 Hcodes) as Hgroups.
  destruct (returns_on_digit_groups cs2) as (m2 & Hgen2 & _).
  { intros g rest Hin. apply (returned_groups_are_digits cs1 m Hgen1).
    apply elem_of_sorted_major_groups. exists (String g rest).
    split; [by apply Hcodes|done]. }
  rewrite Hgen2. f_equal. apply map_eq. intros k.
  destruct (base_hues_exist cs1) as [mgh Hmgh1].
  assert (Hmgh2 : base_hues_of cs2 mgh).
  { apply base_hues_of_intro. rewrite <- Hgroups. by destruct Hmgh1. }
  rewrite (generate_unfold cs1 mgh Hmgh1) in Hgen1.
  rewrite (generate_unfold cs2 mgh Hmgh2) in Hgen2.
  unfold n_major_groups_of in Hgen1, Hgen2. rewrite <- Hgroups in Hgen2.
  apply color_loop_Ok in Hgen1 as [Hin1 Hout1].
  apply color_loop_Ok in Hgen2 as [Hin2 Hout2].
  destruct (decide (k ∈ sorted_isco_of cs1)) as [Hk|Hk].
  - destruct k as [|g rest].
    + by rewrite Hout1, Hout2 by by right.
    + destruct (Hin1 g rest Hk) as (v1 & Hv1 & ->).
      destruct (Hin2 g rest (proj1 (Hcodes _) Hk)) as (v2 & Hv2 & ->). congruence.
  - rewrite Hout1 by by left. rewrite Hout2; [done|].
    left. by rewrite <- Hcodes.
Qed.

Lemma sorted_isco_of_same_elements (cs1 cs2 : list string) :
  (forall c, c ∈ cs1 <-> c ∈ cs2) ->
  forall k, k ∈ sorted_isco_of cs1 <-> k ∈ sorted_isco_of cs2.
Proof.
  intros Hsame k. rewrite !elem_of_sorted_isco_of.
  assert (Hall : forallb parses cs1 = forallb parses cs2).
  { apply eq_true_iff_eq. rewrite !forallb_forall.
    split; intros H c Hc; apply H; apply list_elem_of_In, Hsame, list_elem_of_In, Hc. }
  rewrite Hall. destruct (forallb parses cs2); [|apply Hsame].
  split; intros (c & Hc & ->); exists c; (split; [by apply Hsame|done]).
Qed.

(** X6.  Duplicates among the codes do not matter: two inputs with the same set
    of codes, whatever the repetitions and the order, on which the assigner
    returns, give the same mapping. *)
Theorem duplicates_ignored (cs1 cs2 : list string) (m : gmap string string) :
  (forall c, c ∈ cs1 <-> c ∈ cs2) ->
  generate_isco_grouped_colors cs1 = Ok m ->
  generate_isco_grouped_colors cs2 = Ok m.
Proof.
  intros Hsame. apply same_codes_same_mapping.
  by apply sorted_isco_of_same_elements.
Qed.

Lemma duplicates_ignored_witness :
  generate_isco_grouped_colors ["21"; "11"; "21"; "12"; "11"] =
    Ok (list_to_map [("11", "#e54922"); ("12", "#e57022"); ("21", "#3cf2a9")]).
Proof.
  apply (duplicates_ignored ["11"; "12"; "21"]).
  - intros c. rewrite !list_elem_of_In. simpl. tauto.
  - vm_compute. reflexivity.
Defined.

(** * [str] and [int] *)

(** The value of a run of decimal digits read after [acc]. *)
Fixpoint horner (d : Decimal.uint) (acc : Z) : Z :=
  match d with
  | Decimal.Nil => acc
  | Decimal.D0 l => horner l (10 * acc + 0)
  | Decimal.D1 l => horner l (10 * acc + 1)
  | Decimal.D2 l => horner l (10 * acc + 2)
  | Decimal.D3 l => horner l (10 * acc + 3)
  | Decimal.D4 l => horner l (10 * acc + 4)
  | Decimal.D5 l => horner l (10 * acc + 5)
  | Decimal.D6 l => horner l (10 * acc + 6)
  | Decimal.D7 l => horner l (10 * acc + 7)
  | Decimal.D8 l => horner l (10 * acc + 8)
  | Decimal.D9 l => horner l (10 * acc + 9)
  end.

Lemma of_uint_acc_horner (d : Decimal.uint) (p : positive) :
  Z.pos (Pos.of_uint_acc d p) = horner d (Z.pos p).
Proof.
  revert p. induction d; intros p; cbn [Pos.of_uint_acc horner]; [done|..];
    rewrite IHd; f_equal; lia.
Qed.

Lemma of_uint_horner (d : Decimal.uint) : Z.of_uint d = horner d 0.
Proof.
  unfold Z.of_uint.
  induction d; cbn [Pos.of_uint horner]; [done|exact IHd|..];
    cbn [Z.of_N]; by rewrite of_uint_acc_horner.
Qed.

Lemma scan_digit (c : ascii) (d : Z) (s : string) (acc : Z) (seen : bool) :
  digit_value c = Some d ->
  scan_digits (String c s) acc seen false = scan_digits s (10 * acc + d) true false.
Proof. intros Hd. cbn [scan_digits]. by rewrite Hd. Qed.

Lemma scan_string_of_uint (d : Decimal.uint) (acc : Z) (seen : bool) :
  seen = true \/ d <> Decimal.Nil ->
  scan_digits (DecimalString.NilEmpty.string_of_uint d) acc seen false =
    Some (horner d acc, EmptyString).
Proof.
  revert acc seen. induction d; intros acc seen Hseen;
    cbn [DecimalString.NilEmpty.string_of_uint horner];
    [destruct Hseen as [->|?]; done|..];
    (erewrite scan_digit by reflexivity); by rewrite IHd by (by left).
Qed.

Lemma string_of_uint_plain (d : Decimal.uint) (b : bool) :
  let s := DecimalString.NilZero.string_of_uint d in
  skip_space b s = s /\
  match s with
  | String "+" r => (false, r)
  | String "-" r => (true, r)
  | _ => (false, s)
  end = (false, s) /\
  scan_digits s 0 false false = Some (horner d 0, EmptyString).
Proof.
  unfold DecimalString.NilZero.string_of_uint.
  destruct d; [by destruct b|..];
    (split; [by destruct b|]); (split; [done|]);
    apply scan_string_of_uint; by right.
Qed.

(** [int(str(z))] is [z]. *)
Lemma py_int_py_str (z : Z) : py_int (py_str z) = Ok z.
Proof.
  unfold py_str.
  rewrite <- (DecimalZ.of_to z) at 2.
  destruct (Z.to_int z) as [d|d]; cbn [Z.of_int DecimalString.NilZero.string_of_int];
    rewrite of_uint_horner; unfold py_int; cbv zeta.
  - destruct (string_of_uint_plain d
                (is_ascii_str (DecimalString.NilZero.string_of_uint d)))
      as (-> & -> & ->).
    done.
  - set (b := is_ascii_str _).
    assert (Hskip : skip_space b (String "-" (DecimalString.NilZero.string_of_uint d)) =
                    String "-" (DecimalString.NilZero.string_of_uint d))
      by (by destruct b).
    rewrite Hskip.
    destruct (string_of_uint_plain d b) as (_ & _ & ->). done.
Qed.

Lemma int_value_py_str (z : Z) : int_value (py_str z) = z.
Proof. unfold int_value. by rewrite py_int_py_str. Qed.

Lemma parses_py_str (z : Z) : parses (py_str z) = true.
Proof. unfold parses. by rewrite py_int_py_str. Qed.

(** * Further properties of the flagging store *)

Lemma add_cases last_clicked_data now n_clicks current_data :
  add_to_misclassified last_clicked_data now n_clicks current_data = (current_data, Blank) /\
    (n_clicks = 0 \/ last_clicked_data = ∅) \/
  add_to_misclassified last_clicked_data now n_clicks current_data =
    (current_data, Notice "This job is already in the misclassified list!" "#dc3545") /\
    already_listed last_clicked_data current_data \/
  add_to_misclassified last_clicked_data now n_clicks current_data =
    ((current_data ++
        [<[ "id" := VStr (py_str (Z.of_nat (length current_data) + 1)) ]>
           (<[ "timestamp" := VStr now ]> last_clicked_data)])%list,
     Notice "Added to misclassified jobs list!" "#28a745") /\
    n_clicks <> 0 /\ last_clicked_data <> ∅ /\
    ~ already_listed last_clicked_data current_data.
Proof.
  unfold add_to_misclassified.
  destruct (n_clicks =? 0) eqn:Hn.
  { left. split; [done|]. left. by apply Z.eqb_eq. }
  destruct (size last_clicked_data =? 0)%nat eqn:Hs.
  { left. split; [done|]. right. apply Nat.eqb_eq in Hs. by apply map_size_empty_iff. }
  cbn [orb]. cbv zeta. right.
  apply Z.eqb_neq in Hn. apply Nat.eqb_neq in Hs.
  assert (last_clicked_data <> ∅) by (by rewrite <- map_size_empty_iff).
  destruct (existsb _ current_data) eqn:Hex.
  - left. split; [done|]. by apply existsb_same_record in Hex.
  - right. split; [done|]. repeat split; try done.
    intros Hdup. rewrite (proj2 (existsb_same_record _ _ _ _) Hdup) in Hex.
    discriminate Hex.
Qed.

(** X7.  The add callback never removes, changes or reorders what is in the
    store: the list it returns starts with the list it was given and is at
    most one entry longer; and it grows exactly when the feedback is the
    green notice. *)
Theorem add_only_appends (last_clicked_data : gmap string value) (now : string)
    (n_clicks : Z) (current_data : list (gmap string value)) :
  let result := add_to_misclassified last_clicked_data now n_clicks current_data in
  current_data `prefix_of` fst result /\
  (length (fst result) <= S (length current_data))%nat /\
  (length (fst result) = S (length current_data) <->
   snd result = Notice "Added to misclassified jobs list!" "#28a745").
Proof.
  cbv zeta.
  destruct (add_cases last_clicked_data now n_clicks current_data)
    as [[-> _]|[[-> _]|[-> _]]]; cbn [fst snd].
  - split; [done|]. split; [lia|]. split; [lia|done].
  - split; [done|]. split; [lia|]. split; [lia|done].
  - split; [by apply prefix_app_r|]. rewrite length_app. simpl.
    split; [lia|]. split; [done|lia].
Qed.

(** Every pair of entries in the store differs in translated title or in
    category code. *)
Definition distinct_records (data : list (gmap string value)) : Prop :=
  forall (i j : nat) (earlier later : gmap string value),
    (i < j)%nat -> data !! i = Some earlier -> data !! j = Some later ->
    same_record earlier later = false.

(** X8.  No record is listed twice: in every state of the store reachable from
    the empty list through the add and clear callbacks, no two entries have
    both an equal translated title and an equal category code. *)
Theorem no_record_listed_twice (data : list (gmap string value)) :
  reachable data -> distinct_records data.
Proof.
  induction 1 as [|data ev _ IH].
  - intros i j earlier later _ Hi. by rewrite lookup_nil in Hi.
  - destruct ev as [last_clicked_data now n_clicks|n_clicks].
    + unfold handle.
      destruct (add_cases last_clicked_data now n_clicks data)
        as [[-> _]|[[-> _]|[-> (_ & _ & Hnew)]]]; cbn [fst]; try done.
      intros i j earlier later Hij Hi Hj.
      apply lookup_app_Some in Hj as [Hj|[Hlen Hj]].
      * apply (IH i j); try done.
        rewrite lookup_app_l in Hi; [done|].
        apply lookup_lt_Some in Hj. lia.
      * apply list_lookup_singleton_Some in Hj as [Hzero <-].
        rewrite lookup_app_l in Hi by lia.
        rewrite same_record_last_clicked.
        destruct (same_record earlier last_clicked_data) eqn:Hsame; [|done].
        exfalso. apply Hnew. exists earlier. split; [|done].
        apply list_elem_of_lookup. by exists i.
    + intros i j earlier later _ Hi. cbn [handle clear_misclassified fst] in Hi.
      by rewrite lookup_nil in Hi.
Qed.

Lemma no_record_listed_twice_witness :
  let welder : gmap string value :=
    {[ "title_en" := VStr "Welder"; "isco2d" := VStr "72" ]} in
  let baker : gmap string value :=
    {[ "title_en" := VStr "Baker"; "isco2d" := VStr "75" ]} in
  distinct_records
    (handle (handle (handle [] (Add welder "2025-05-05 10:15:40" 1))
                    (Add baker "2025-05-05 10:16:02" 2))
            (Add welder "2025-05-05 10:17:30" 3)).
Proof.
  intros welder baker. apply no_record_listed_twice.
  do 3 apply reachable_handle. apply reachable_initial.
Defined.

(** * Further properties of the click handler *)

Lemma submajor_names_nonempty (code name : string) :
  isco_submajor_groups !! code = Some name -> name <> EmptyString.
Proof.
  intros Hin. apply elem_of_list_to_map_2 in Hin.
  repeat (apply elem_of_cons in Hin as [[= _ ->]|Hin]; [done|]).
  by apply elem_of_nil in Hin.
Qed.

(** The label of the major group an unlisted code falls back to: codes that
    start with ["10"] are armed forces, other codes that start with ["1"]
    are managers, and a first character outside 1-9 has no group. *)
Definition fallback_label (c0 : ascii) (rest : string) : string :=
  if Ascii.eqb c0 "1" then
    match rest with
    | String "0" _ => "Armed Forces Occupations"
    | _ => "Managers"
    end
  else default "Unknown Group" (isco_major_groups !! char_str c0).

(** X9.  The group name shown for a category code: the name listed for it in the
    table of submajor groups; for a code that is not listed, the major
    group of its first character in the form ["(In ...)"].  It is empty only
    for the empty code. *)
Theorem group_name_shown (isco2d : string) :
  match isco_submajor_groups !! isco2d with
  | Some name => submajor_group_name_of isco2d = name /\ name <> EmptyString
  | None =>
      match isco2d with
      | String c0 rest =>
          submajor_group_name_of isco2d =
            ("(In " ++ fallback_label c0 rest ++ ")")%string
      | EmptyString => submajor_group_name_of isco2d = EmptyString
      end
  end.
Proof.
  unfold submajor_group_name_of. cbv zeta.
  destruct isco2d as [|c0 rest].
  - destruct (isco_submajor_groups !! EmptyString) as [name|] eqn:Hlook; cbn [default from_option id].
    + split; [done|]. exact (submajor_names_nonempty _ _ Hlook).
    + done.
  - destruct (isco_submajor_groups !! String c0 rest) as [name|] eqn:Hlook;
      cbn [default from_option id].
    + pose proof (submajor_names_nonempty _ _ Hlook) as Hne. split; [|done].
      destruct (String.eqb name "") eqn:Heq; [|done].
      by apply String.eqb_eq in Heq.
    + cbn [String.eqb]. unfold fallback_label.
      destruct (Ascii.eqb c0 "1") eqn:Hc; cbn [negb]; [|done].
      destruct rest as [|[[] [] [] [] [] [] [] []] rest']; done.
Qed.

Section click_more.

Variable series_round_3 : float -> float.
Variable builtin_round_3 : float -> float.
Variable format_3f : float -> string.
Variable df : list row.
Variable color_map : gmap string string.

Let matches (pt : point) : row -> bool :=
  row_matches series_round_3 builtin_round_3
    (pt_isco2d pt) (pt_title_en pt) (pt_x pt) (pt_y pt).

(** X10.  When several rows match the clicked point, the first one in the
    dataframe supplies the original title, both to the panel and to
    [last_clicked_data]. *)
Theorem first_match_supplies_title (before after : list row) (r : row) (pt : point)
    (last_clicked_data : gmap string value) :
  df = (before ++ r :: after)%list ->
  (forall r', r' ∈ before -> matches pt r' = false) ->
  matches pt r = true ->
  exists d stored,
    display_click series_round_3 builtin_round_3 format_3f df color_map (Some pt)
      last_clicked_data = (stored, Panel d) /\
    shown_original_title d = row_title r /\
    shown_english_title d = pt_title_en pt /\
    stored !! "title" = Some (VStr (row_title r)).
Proof.
  intros Hdf Hbefore Hr. unfold display_click. cbv zeta. fold (matches pt).
  assert (Hfilter : exists tl, filter (matches pt) df = r :: tl).
  { rewrite Hdf. clear Hdf. induction before as [|r' before IH]; cbn [app].
    - rewrite filter_cons_True by (by rewrite Hr). by eexists.
    - rewrite filter_cons_False.
      + apply IH. intros r'' Hin. apply Hbefore. by right.
      + rewrite Hbefore; [exact id|by left]. }
  destruct Hfilter as [tl ->]. do 2 eexists. split; [reflexivity|].
  cbn [shown_original_title shown_english_title].
  split; [done|]. split.
  - unfold matches, row_matches in Hr.
    repeat (apply andb_prop in Hr as [Hr ?]).
    match goal with H : String.eqb (row_title_en r) _ = true |- _ =>
      by apply String.eqb_eq in H end.
  - rewrite lookup_insert_ne by done. apply lookup_insert_eq.
Qed.

End click_more.

Lemma first_match_supplies_title_witness :
  let r0 := {| row_isco2d := "71"; row_title := "Plotnik"; row_title_en := "Carpenter";
               row_x := literal 15 10; row_y := literal 25 10 |} in
  let r1 := {| row_isco2d := "72"; row_title := "Svarshchik"; row_title_en := "Welder";
               row_x := literal 15 10; row_y := literal 25 10 |} in
  let r2 := {| row_isco2d := "72"; row_title := "Gazosvarshchik"; row_title_en := "Welder";
               row_x := literal 15004 10000; row_y := literal 25 10 |} in
  let pt := {| pt_title_en := "Welder"; pt_isco2d := "72";
               pt_x := literal 15 10; pt_y := literal 25 10 |} in
  exists d stored,
    display_click round_3 round_3 (fun _ => "") [r0; r1; r2] ∅ (Some pt) ∅ =
      (stored, Panel d) /\
    shown_original_title d = "Svarshchik" /\
    shown_english_title d = "Welder" /\
    stored !! "title" = Some (VStr "Svarshchik").
Proof.
  intros r0 r1 r2 pt.
  apply (first_match_supplies_title round_3 round_3 (fun _ => "") [r0; r1; r2] ∅
           [r0] [r2] r1 pt ∅).
  - reflexivity.
  - intros r' Hr'. apply list_elem_of_In in Hr'. destruct Hr' as [<-|[]].
    vm_compute. reflexivity.
  - vm_compute. reflexivity.
Defined.

(** * Properties of a session *)

Lemma returned_colour_is_hex (cs : list string) (m : gmap string string) (k v : string) :
  generate_isco_grouped_colors cs = Ok m -> m !! k = Some v -> is_hex_color v = true.
Proof.
  intros Hgen Hk.
  destruct (returned_entry cs m k v Hgen Hk)
    as (g & rest & i & gd & -> & _ & _ & Hlt & Hn & _ & Hshade).
  destruct (shade_checked (n_major_groups_of cs) i
              (second_digit (String g rest)) (gd mod 2 =? 1) Hn Hlt
              (second_digit_option _))
    as (r & gr & b & Hv & _ & _ & _ & Hhex).
  congruence.
Qed.

Section session_properties.

Variable series_round_3 : float -> float.
Variable builtin_round_3 : float -> float.
Variable format_3f : float -> string.
Variable df : list row.
Variable color_map : gmap string string.

(** The original title the handler finds for the point [pt]: the title of
    the first row that matches it, or the placeholder. *)
Definition original_title_of (pt : point) : string :=
  match filter (row_matches series_round_3 builtin_round_3
                  (pt_isco2d pt) (pt_title_en pt) (pt_x pt) (pt_y pt)) df with
  | r :: _ => row_title r
  | [] => "Original title not available"
  end.

(** The record a click on [pt] selects. *)
Definition record_of (pt : point) : gmap string value :=
  <[ "submajor_group_name" := VStr (submajor_group_name_of (pt_isco2d pt)) ]>
    (<[ "title" := VStr (original_title_of pt) ]>
       (<[ "y" := VNum (pt_y pt) ]> (<[ "x" := VNum (pt_x pt) ]>
          (<[ "title_en" := VStr (pt_title_en pt) ]>
             {[ "isco2d" := VStr (pt_isco2d pt) ]})))).

Lemma display_click_selects (pt : point) (last_clicked_data : gmap string value) :
  fst (display_click series_round_3 builtin_round_3 format_3f df color_map
         (Some pt) last_clicked_data) = record_of pt.
Proof.
  unfold display_click, record_of, original_title_of. cbv zeta.
  by destruct (filter _ df).
Qed.

(** X11.  The colour of the panel's border, when the colour map is a mapping the
    assigner returned: the colour assigned to the clicked code, or
    [#333333] for a code that is not a key; in both cases ['#'] and six
    hexadecimal digits, and the background is that colour followed by
    ["22"]. *)
Theorem panel_colour_is_hex (cs : list string) (pt : point)
    (last_clicked_data : gmap string value) :
  generate_isco_grouped_colors cs = Ok color_map ->
  exists d stored,
    display_click series_round_3 builtin_round_3 format_3f df color_map (Some pt)
      last_clicked_data = (stored, Panel d) /\
    shown_border_color d = default "#333333" (color_map !! pt_isco2d pt) /\
    is_hex_color (shown_border_color d) = true /\
    shown_background d = (shown_border_color d ++ "22")%string.
Proof.
  intros Hgen. unfold display_click. cbv zeta.
  assert (Hhex : is_hex_color (default "#333333" (color_map !! pt_isco2d pt)) = true).
  { destruct (color_map !! pt_isco2d pt) as [v|] eqn:Hv; [|done].
    exact (returned_colour_is_hex cs color_map _ v Hgen Hv). }
  destruct (filter _ df); do 2 eexists; (split; [reflexivity|]); by cbn.
Qed.

(** A click on a point, as opposed to a click event without data. *)
Definition is_point_click (a : action) : bool :=
  match a with
  | ClickPoint (Some _) => true
  | _ => false
  end.

Definition is_clear (a : action) : bool :=
  match a with
  | PressClear _ => true
  | _ => false
  end.

(** [pt] is the point selected after [actions]: it was clicked, and no
    point was clicked since. *)
Definition selected_by (actions : list action) (pt : point) : Prop :=
  exists before between,
    actions = (before ++ ClickPoint (Some pt) :: between)%list /\
    existsb is_point_click between = false.

Lemma session_after_snoc (actions : list action) (a : action) :
  session_after series_round_3 builtin_round_3 format_3f df color_map
    (actions ++ [a]) =
  perform series_round_3 builtin_round_3 format_3f df color_map
    (session_after series_round_3 builtin_round_3 format_3f df color_map actions) a.
Proof. unfold session_after. by rewrite foldl_app. Qed.

Lemma selected_after (actions : list action) :
  let s := session_after series_round_3 builtin_round_3 format_3f df color_map
             actions in
  selected s = ∅ /\ existsb is_point_click actions = false \/
  exists pt, selected_by actions pt /\ selected s = record_of pt.
Proof.
  induction actions as [|a actions IH] using rev_ind; [by left|].
  cbv zeta in *. rewrite session_after_snoc.
  destruct a as [[pt|]|n_clicks now|n_clicks]; cbn [perform selected].
  - right. exists pt. split; [|apply display_click_selects].
    by exists actions, [].
  - destruct IH as [[Hsel Hnone]|(pt & (before & between & -> & Hnone) & Hsel)].
    + left. split; [done|]. rewrite existsb_app, Hnone. done.
    + right. exists pt. split; [|done].
      exists before, (between ++ [ClickPoint None])%list.
      split; [by rewrite <- app_assoc|]. rewrite existsb_app, Hnone. done.
  - destruct IH as [[Hsel Hnone]|(pt & (before & between & -> & Hnone) & Hsel)].
    + left. split; [done|]. rewrite existsb_app, Hnone. done.
    + right. exists pt. split; [|done].
      exists before, (between ++ [PressAdd n_clicks now])%list.
      split; [by rewrite <- app_assoc|]. rewrite existsb_app, Hnone. done.
  - destruct IH as [[Hsel Hnone]|(pt & (before & between & -> & Hnone) & Hsel)].
    + left. split; [done|]. rewrite existsb_app, Hnone. done.
    + right. exists pt. split; [|done].
      exists before, (between ++ [PressClear n_clicks])%list.
      split; [by rewrite <- app_assoc|]. rewrite existsb_app, Hnone. done.
Qed.

(** X12.  Every flagged record of a session comes from a click of that
    session.  If [entry] is in the store after [actions], then [actions]
    holds a click on a point [pt], later a press of the add button with a
    non-zero click count, no click on a point between the two and no press
    of the clear button after the add; and [entry] is the record of [pt],
    its category code, translated title, coordinates, the group name shown
    for the code and the original title the handler finds for [pt], with
    the time of the press and an id, and no other key. *)
Theorem flagged_records_are_clicked_points (actions : list action)
    (entry : gmap string value) :
  entry ∈ flagged (session_after series_round_3 builtin_round_3 format_3f df
                     color_map actions) ->
  exists before between after pt n_clicks now id,
    actions = (before ++ ClickPoint (Some pt) :: between ++
               PressAdd n_clicks now :: after)%list /\
    existsb is_point_click between = false /\
    existsb is_clear after = false /\
    n_clicks <> 0 /\
    entry = <[ "id" := VStr id ]> (<[ "timestamp" := VStr now ]> (record_of pt)) /\
    dom entry = ({[ "isco2d"; "title_en"; "x"; "y"; "title";
                    "submajor_group_name"; "timestamp"; "id" ]} : gset string).
Proof.
  revert entry. induction actions as [|a actions IH] using rev_ind; intros entry Hin.
  { by apply elem_of_nil in Hin. }
  rewrite session_after_snoc in Hin.
  assert (Hkeep : is_clear a = false ->
            entry ∈ flagged (session_after series_round_3 builtin_round_3 format_3f
                               df color_map actions) ->
            exists before between after pt n_clicks now id,
              (actions ++ [a])%list =
                (before ++ ClickPoint (Some pt) :: between ++
                 PressAdd n_clicks now :: after)%list /\
              existsb is_point_click between = false /\
              existsb is_clear after = false /\
              n_clicks <> 0 /\
              entry = <[ "id" := VStr id ]>
                        (<[ "timestamp" := VStr now ]> (record_of pt)) /\
              dom entry = ({[ "isco2d"; "title_en"; "x"; "y"; "title";
                              "submajor_group_name"; "timestamp"; "id" ]}
                           : gset string)).
  { intros Ha Hold.
    destruct (IH entry Hold)
      as (before & between & after & pt & n & now & id & -> & Hb & Hc & Hn & He & Hd).
    exists before, between, (after ++ [a])%list, pt, n, now, id.
    split; [by rewrite <- !app_assoc, <- !app_comm_cons, <- app_assoc|].
    split; [done|]. split; [|done].
    rewrite existsb_app, Hc. cbn [existsb orb]. by rewrite Ha. }
  destruct a as [clickData|n_clicks now|n_clicks]; cbn [perform flagged] in Hin.
  - by apply Hkeep.
  - destruct (add_cases
                (selected (session_after series_round_3 builtin_round_3 format_3f
                             df color_map actions))
                now n_clicks
                (flagged (session_after series_round_3 builtin_round_3 format_3f
                            df color_map actions)))
      as [[Heq _]|[[Heq _]|[Heq (Hn & Hsel & _)]]];
      rewrite Heq in Hin; cbn [fst] in Hin; try by apply Hkeep.
    apply elem_of_app in Hin as [Hin|Hin]; [by apply Hkeep|].
    apply list_elem_of_singleton in Hin as ->.
    destruct (selected_after actions)
      as [[Hempty _]|(pt & (before & between & -> & Hnone) & Hrec)]; [done|].
    exists before, between, [], pt, n_clicks, now,
      (py_str (Z.of_nat (length (flagged (session_after series_round_3
         builtin_round_3 format_3f df color_map
         (before ++ ClickPoint (Some pt) :: between)))) + 1)).
    split; [by rewrite <- app_assoc|]. split; [done|]. split; [done|].
    split; [done|]. rewrite Hrec. split; [done|].
    unfold record_of. rewrite !dom_insert_L, dom_singleton_L. set_solver.
  - cbn [clear_misclassified fst] in Hin. by apply elem_of_nil in Hin.
Qed.

End session_properties.

Lemma panel_colour_is_hex_witness :
  let color_map : gmap string string :=
    list_to_map [("101", "#e52222"); ("102", "#e52222"); ("21", "#3cf2a9")] in
  let pt := {| pt_title_en := "Welder"; pt_isco2d := "21";
               pt_x := literal 15 10; pt_y := literal 25 10 |} in
  exists d stored,
    display_click round_3 round_3 (fun _ => "") [] color_map (Some pt) ∅ =
      (stored, Panel d) /\
    shown_border_color d = default "#333333" (color_map !! pt_isco2d pt) /\
    is_hex_color (shown_border_color d) = true /\
    shown_background d = (shown_border_color d ++ "22")%string.
Proof.
  intros color_map pt.
  apply (panel_colour_is_hex round_3 round_3 (fun _ => "") [] color_map
           ["101"; "102"; "21"] pt ∅).
  vm_compute. reflexivity.
Defined.

Lemma flagged_records_are_clicked_points_witness :
  let pt := {| pt_title_en := "Welder"; pt_isco2d := "72";
               pt_x := literal 15 10; pt_y := literal 25 10 |} in
  let actions := [ClickPoint (Some pt); ClickPoint None;
                  PressAdd 1 "2024-05-01 10:00:00"] in
  let entry : gmap string value :=
    <[ "id" := VStr "1" ]>
      (<[ "timestamp" := VStr "2024-05-01 10:00:00" ]> (record_of round_3 round_3 [] pt)) in
  exists before between after pt' n_clicks now id,
    actions = (before ++ ClickPoint (Some pt') :: between ++
               PressAdd n_clicks now :: after)%list /\
    existsb is_point_click between = false /\
    existsb is_clear after = false /\
    n_clicks <> 0 /\
    entry = <[ "id" := VStr id ]>
              (<[ "timestamp" := VStr now ]> (record_of round_3 round_3 [] pt')) /\
    dom entry = ({[ "isco2d"; "title_en"; "x"; "y"; "title";
                    "submajor_group_name"; "timestamp"; "id" ]} : gset string).
Proof.
  intros pt actions entry.
  apply (flagged_records_are_clicked_points round_3 round_3 (fun _ => "") [] ∅
           actions entry).
  unfold actions, session_after. cbn [foldl].
  unfold perform, session_start. cbn [flagged selected].
  match goal with |- _ ∈ fst (add_to_misclassified ?sel ?now ?n ?data) =>
    destruct (add_cases sel now n data)
      as [[_ [Hn|Hsel]]|[[_ (listed & Hin & _)]|[-> _]]]
  end.
  - discriminate Hn.
  - apply (f_equal (fun m : gmap string value => m !! "isco2d")) in Hsel.
    vm_compute in Hsel. discriminate Hsel.
  - by apply elem_of_nil in Hin.
  - cbn [fst app]. apply list_elem_of_singleton. reflexivity.
Defined.

(** * Properties of the legend order *)

(** The key of a code whose key can be computed. *)
Definition key_of (x : string) : option Z :=
  if py_isdigit x then Some (int_value x) else None.

(** [a <= b] on keys, the negation of [b < a]. *)
Definition key_le (a b : option Z) : Prop := key_lt b a = false.

Lemma key_le_total (a b : option Z) : key_le a b \/ key_le b a.
Proof.
  unfold key_le. destruct a as [x|], b as [y|]; cbn; auto.
  destruct (Z.ltb_spec y x), (Z.ltb_spec x y); auto. lia.
Qed.

Lemma key_le_trans (a b c : option Z) : key_le a b -> key_le b c -> key_le a c.
Proof.
  unfold key_le. destruct a as [x|], b as [y|], c as [z|]; cbn; try done.
  rewrite !Z.ltb_ge. lia.
Qed.

Lemma legend_key_cases (x : string) :
  legend_key x = Ok (key_of x) \/
  legend_key x = Raise ValueError /\ py_isdigit x = true /\ parses x = false.
Proof.
  unfold legend_key, key_of. destruct (py_isdigit x); [|by left].
  destruct (py_int_cases x) as [[-> _]|[-> Hp]]; [by left|by right].
Qed.

Lemma keyed_spec (cs : list string) (keyed : list (option Z * string)) :
  comprehend (fun x => k <-! legend_key x ; Ok (k, x)) cs = Ok keyed ->
  keyed = map (fun x => (key_of x, x)) cs.
Proof.
  revert keyed. induction cs as [|c cs IH]; intros keyed Hrun; simpl in Hrun.
  - by injection Hrun as <-.
  - destruct (legend_key_cases c) as [Hk|[Hk _]]; rewrite Hk in Hrun; [|done].
    cbn [bind] in Hrun.
    destruct (comprehend _ cs) as [keyed'|] eqn:Hrest; [|done].
    cbn [bind] in Hrun. injection Hrun as <-. cbn [map]. f_equal. by apply IH.
Qed.

Lemma insert_by_key_perm kx l : insert_by_key kx l ≡ₚ kx :: l.
Proof.
  induction l as [|ky l IH]; [done|]. cbn [insert_by_key].
  destruct (key_lt (fst ky) (fst kx)); [|done].
  by rewrite IH, Permutation_swap.
Qed.

Lemma sorted_by_key_perm l : sorted_by_key l ≡ₚ l.
Proof.
  induction l as [|kx l IH]; [done|]. cbn [sorted_by_key].
  by rewrite insert_by_key_perm, IH.
Qed.

Definition keys_ascend (l : list (option Z * string)) : Prop :=
  StronglySorted (fun a b => key_le (fst a) (fst b)) l.

Lemma insert_by_key_ascend kx l : keys_ascend l -> keys_ascend (insert_by_key kx l).
Proof.
  unfold keys_ascend. induction 1 as [|ky l Hl IH Hall]; cbn [insert_by_key].
  - repeat constructor.
  - destruct (key_lt (fst ky) (fst kx)) eqn:Hlt.
    + constructor; [done|].
      rewrite insert_by_key_perm. constructor; [|done].
      unfold key_le. destruct (fst ky) as [y|], (fst kx) as [x|]; cbn in *; try done.
      apply Z.ltb_lt in Hlt. apply Z.ltb_ge. lia.
    + constructor; [by constructor|]. constructor; [exact Hlt|].
      eapply Forall_impl; [exact Hall|]. intros kz Hz.
      eapply key_le_trans; [exact Hlt|exact Hz].
Qed.

Lemma sorted_by_key_ascend l : keys_ascend (sorted_by_key l).
Proof.
  induction l as [|kx l IH]; [constructor|]. by apply insert_by_key_ascend.
Qed.

Lemma legend_perm (cs legend : list string) :
  sorted_categories cs = Ok legend -> legend ≡ₚ cs.
Proof.
  unfold sorted_categories. intros Hrun.
  apply bind_Ok in Hrun as (keyed & Hkeyed & Hrun). injection Hrun as <-.
  apply keyed_spec in Hkeyed. subst keyed.
  change (map snd ?l) with (snd <$> l). rewrite sorted_by_key_perm.
  change (map ?f cs) with (f <$> cs). rewrite <- list_fmap_compose.
  by rewrite list_fmap_id.
Qed.

(** X13.  The legend lists the same codes as the input, reordered so that the keys
    never decrease: the codes made of digits come first, in ascending
    numeric order, and every other code comes after them. *)
Theorem legend_is_sorted_input (cs legend : list string) :
  sorted_categories cs = Ok legend ->
  legend ≡ₚ cs /\
  forall (i j : nat) (a b : string),
    (i < j)%nat -> legend !! i = Some a -> legend !! j = Some b ->
    match key_of a, key_of b with
    | Some x, Some y => x <= y
    | Some _, None => True
    | None, Some _ => False
    | None, None => True
    end.
Proof.
  unfold sorted_categories. intros Hrun.
  apply bind_Ok in Hrun as (keyed & Hkeyed & Hrun). injection Hrun as <-.
  apply keyed_spec in Hkeyed. subst keyed.
  set (keyed := map (fun x => (key_of x, x)) cs).
  assert (Hperm : sorted_by_key keyed ≡ₚ keyed) by apply sorted_by_key_perm.
  assert (Hkeys : Forall (fun kx => fst kx = key_of (snd kx)) (sorted_by_key keyed)).
  { rewrite Hperm. unfold keyed. apply Forall_forall.
    intros kx (x & -> & _)%list_elem_of_fmap. done. }
  split.
  - change (map snd ?l) with (snd <$> l). rewrite Hperm. unfold keyed.
    change (map ?f cs) with (f <$> cs). rewrite <- list_fmap_compose.
    by rewrite list_fmap_id.
  - intros i j a b Hij Hi Hj.
    change (map snd ?l) with (snd <$> l) in Hi, Hj.
    apply list_lookup_fmap_Some in Hi as (ka & -> & Hi).
    apply list_lookup_fmap_Some in Hj as (kb & -> & Hj).
    pose proof (sorted_by_key_ascend keyed) as Hsorted.
    rewrite Forall_forall in Hkeys.
    rewrite <- (Hkeys ka), <- (Hkeys kb)
      by (apply list_elem_of_lookup; eauto).
    assert (Hle : key_le (fst ka) (fst kb)).
    { unfold keys_ascend in Hsorted.
      apply (take_drop_middle _ _ _) in Hi as Hsplit. rewrite <- Hsplit in Hsorted.
      apply StronglySorted_app in Hsorted as (_ & _ & Hsorted).
      apply StronglySorted_cons in Hsorted as [Hall _].
      rewrite Forall_forall in Hall. apply Hall.
      apply list_elem_of_lookup. exists (j - S i)%nat.
      rewrite lookup_drop. rewrite <- Hj. f_equal. lia. }
    unfold key_le in Hle.
    destruct (fst ka) as [x|], (fst kb) as [y|]; cbn in Hle; try done.
    by apply Z.ltb_ge in Hle.
Qed.

Lemma insert_by_key_filter (k : option Z) kx l :
  filter (fun ky : option Z * string => fst ky = k) (insert_by_key kx l) =
  filter (fun ky : option Z * string => fst ky = k) (kx :: l).
Proof.
  induction l as [|ky l IH]; [done|]. cbn [insert_by_key].
  destruct (key_lt (fst ky) (fst kx)) eqn:Hlt; [|done].
  assert (Hne : fst ky <> fst kx).
  { intros Heq. rewrite Heq in Hlt. destruct (fst kx) as [x|]; cbn in Hlt; [|done].
    apply Z.ltb_lt in Hlt. lia. }
  rewrite (filter_cons _ ky), IH, !(filter_cons _ kx), (filter_cons _ ky).
  repeat case_decide; try done. congruence.
Qed.

Lemma sorted_by_key_filter (k : option Z) l :
  filter (fun ky : option Z * string => fst ky = k) (sorted_by_key l) =
  filter (fun ky : option Z * string => fst ky = k) l.
Proof.
  induction l as [|kx l IH]; [done|]. cbn [sorted_by_key].
  by rewrite insert_by_key_filter, !(filter_cons _ kx), IH.
Qed.

(** X14.  The sort is stable: the codes with a given key stand in the legend in
    the order they have in the input.  In particular the codes that are not
    made of digits, which all have the infinite key, close the legend in
    their input order. *)
Theorem legend_keeps_input_order (cs legend : list string) (k : option Z) :
  sorted_categories cs = Ok legend ->
  filter (fun x => key_of x = k) legend = filter (fun x => key_of x = k) cs.
Proof.
  unfold sorted_categories. intros Hrun.
  apply bind_Ok in Hrun as (keyed & Hkeyed & Hrun). injection Hrun as <-.
  apply keyed_spec in Hkeyed. subst keyed.
  set (keyed := map (fun x => (key_of x, x)) cs).
  assert (Hkeys : forall l : list (option Z * string),
            Forall (fun kx => fst kx = key_of (snd kx)) l ->
            filter (fun x => key_of x = k) (map snd l) =
            map snd (filter (fun ky : option Z * string => fst ky = k) l)).
  { induction 1 as [|kx l Hkx _ IH]; [done|]. cbn [map].
    rewrite !filter_cons, IH. rewrite <- Hkx. by case_decide. }
  rewrite Hkeys.
  - rewrite sorted_by_key_filter, <- Hkeys.
    + unfold keyed. rewrite map_map. cbn [snd]. by rewrite map_id.
    + unfold keyed. apply Forall_forall.
      intros kx (x & -> & _)%list_elem_of_fmap. done.
  - rewrite sorted_by_key_perm. unfold keyed. apply Forall_forall.
    intros kx (x & -> & _)%list_elem_of_fmap. done.
Qed.

(** ** When the legend order is produced *)












Lemma legend_is_sorted_input_witness :
  ["3"; "21"; "101"; "x9"; "a"] ≡ₚ ["21"; "x9"; "101"; "a"; "3"] /\
  forall (i j : nat) (a b : string),
    (i < j)%nat ->
    ["3"; "21"; "101"; "x9"; "a"] !! i = Some a ->
    ["3"; "21"; "101"; "x9"; "a"] !! j = Some b ->
    match key_of a, key_of b with
    | Some x, Some y => x <= y
    | Some _, None => True
    | None, Some _ => False
    | None, None => True
    end.
Proof.
  apply (legend_is_sorted_input ["21"; "x9"; "101"; "a"; "3"]). reflexivity.
Defined.

Lemma legend_keeps_input_order_witness :
  filter (fun x => key_of x = Some 3) ["03"; "3"; "21"; "x9"] =
  filter (fun x => key_of x = Some 3) ["21"; "03"; "x9"; "3"].
Proof.
  apply (legend_keeps_input_order ["21"; "03"; "x9"; "3"]). reflexivity.
Defined.

(** ** The integer path normalises the codes *)

(** X16.  When every code parses as an integer, every key of the returned
    mapping is the decimal numeral of the integer it reads as: [int] accepts
    it and [str] gives it back, so it has no sign, space, underscore or
    leading zero that [int] would drop. *)
Theorem keys_are_canonical (cs : list string) (m : gmap string string) (k : string) :
  generate_isco_grouped_colors cs = Ok m ->
  forallb parses cs = true ->
  k ∈ dom m ->
  exists z, py_int k = Ok z /\ py_str z = k /\ exists c, c ∈ cs /\ py_int c = Ok z.
Proof.
  intros Hgen Hall Hk. apply elem_of_dom in Hk.
  apply (dom_of_returned cs m k Hgen) in Hk as [Hk _].
  rewrite elem_of_sorted_isco_of, Hall in Hk. destruct Hk as (c & Hc & ->).
  exists (int_value c). split; [apply py_int_py_str|]. split; [done|].
  exists c. split; [done|].
  rewrite forallb_forall in Hall. specialize (Hall c (proj1 (list_elem_of_In _ _) Hc)).
  destruct (py_int_cases c) as [[Hok _]|[_ Hp]]; [done|congruence].
Qed.

Lemma keys_are_canonical_witness :
  exists z, py_int "7" = Ok z /\ py_str z = "7" /\
    exists c, c ∈ [" 7"; "0_30"] /\ py_int c = Ok z.
Proof.
  assert (Hgen : generate_isco_grouped_colors [" 7"; "0_30"] =
                 Ok (list_to_map [("7", "#22e570"); ("30", "#e52222")]))
    by (vm_compute; reflexivity).
  apply (keys_are_canonical _ _ "7" Hgen); [reflexivity|].
  apply elem_of_dom. vm_compute. by eexists.
Defined.

(** X17.  When every code parses as an integer, running the assigner again on
    the keys of the mapping it returned gives the same mapping back. *)
Theorem assigner_is_idempotent (cs ks : list string) (m : gmap string string) :
  generate_isco_grouped_colors cs = Ok m ->
  forallb parses cs = true ->
  (forall k, k ∈ ks <-> k ∈ dom m) ->
  generate_isco_grouped_colors ks = Ok m.
Proof.
  intros Hgen Hall Hks. apply (same_codes_same_mapping cs ks m); [|done].
  assert (Hkeys : forall k, k ∈ ks <-> exists c, c ∈ cs /\ k = py_str (int_value c)).
  { intros k. rewrite Hks, elem_of_dom, (dom_of_returned cs m k Hgen).
    rewrite elem_of_sorted_isco_of, Hall. split; [by intros [? _]|].
    intros (c & Hc & ->). split; [by exists c|apply py_str_nonempty]. }
  assert (Hall' : forallb parses ks = true).
  { apply forallb_forall. intros k Hk.
    apply list_elem_of_In, Hkeys in Hk as (c & _ & ->). apply parses_py_str. }
  intros k. rewrite !elem_of_sorted_isco_of, Hall, Hall'. split.
  - intros (c & Hc & ->). exists (py_str (int_value c)).
    split; [apply Hkeys; by exists c|]. by rewrite int_value_py_str.
  - intros (k' & Hk' & ->). apply Hkeys in Hk' as (c & Hc & ->).
    exists c. split; [done|]. by rewrite int_value_py_str.
Qed.

Lemma assigner_is_idempotent_witness :
  generate_isco_grouped_colors ["30"; "7"] =
    Ok (list_to_map [("7", "#22e570"); ("30", "#e52222")]).
Proof.
  apply (assigner_is_idempotent [" 7"; "0_30"; "+7"]).
  - vm_compute. reflexivity.
  - reflexivity.
  - intros k. rewrite dom_list_to_map_L, elem_of_list_to_set.
    cbn [fmap list_fmap fst]. rewrite !list_elem_of_In. simpl. intuition congruence.
Defined.

(** * Start-up: the colour map and the legend together *)

(** X18.  The legend order lists every category; a category has its colour in
    the colour map exactly when it is not empty and, on the integer path,
    is the decimal numeral of its value.  The figure looks colours up by
    category, so a category written with a leading zero, a sign, a space or
    an underscore is drawn without the colour assigned to it. *)
Theorem legend_entries_coloured (cs legend : list string) (color_map : gmap string string)
    (c : string) :
  start_up cs = Ok (color_map, legend) ->
  c ∈ legend ->
  is_Some (color_map !! c) <->
  c <> EmptyString /\ (forallb parses cs = true -> py_str (int_value c) = c).
Proof.
  unfold start_up. intros Hrun Hc.
  apply bind_Ok in Hrun as (m & Hgen & Hrun).
  apply bind_Ok in Hrun as (l & Hlegend & Hrun). injection Hrun as <- <-.
  assert (Hin : c ∈ cs).
  { apply legend_perm in Hlegend. by rewrite <- Hlegend. }
  rewrite (dom_of_returned cs m c Hgen), elem_of_sorted_isco_of.
  destruct (forallb parses cs).
  - split.
    + intros [(c' & Hc' & ->) Hne]. split; [done|]. intros _.
      by rewrite int_value_py_str.
    + intros [Hne Hcanon]. split; [|done]. exists c. split; [done|].
      symmetry. by apply Hcanon.
  - split; [intros [_ Hne]; by split|intros [Hne _]; by split].
Qed.

Lemma legend_entries_coloured_witness :
  is_Some ((list_to_map [("7", "#22e570"); ("30", "#e52222")] : gmap string string)
             !! "030") <->
  "030" <> EmptyString /\
  (forallb parses ["7"; "030"] = true -> py_str (int_value "030") = "030").
Proof.
  apply (legend_entries_coloured ["7"; "030"] ["7"; "030"]).
  - vm_compute. reflexivity.
  - apply list_elem_of_In. right. by left.
Defined.
